(** * The /enrich request pipeline of [rest.py]

    A shallow embedding of [Enrich.POST] and of the static methods it calls
    ([get_text], [get_language], [get_language_name], [get_translation],
    [get_json]), followed by the properties of the pipeline.

    Conventions of the embedding.
    - Python [str] values are [string]; a variable that may hold [None] is an
      [option string]. [str(x)] on a form field is the identity.
    - The collaborators the handler calls into (base64, uuid, the disk, PIL,
      pytesseract, goslate, json) are the fields of a [World]; a call either
      returns a value or raises.
    - The handler's answer is the string [json.dumps] makes of a dict. The
      embedding answers with that dict, once [json.dumps] has returned: the
      string is a function of it ([json_dumps] of the [World]).
    - The handler runs in a state-and-exception monad. The state holds the
      upload directory (a finite map from paths to file contents) and a
      trace. The trace has a line for every call of a method of [Enrich],
      with its arguments, where the method's [LOGGER.info] line stands, and a
      line for every value a [LOGGER.debug] line reports. The [LOGGER] lines
      that only announce a fault are left to the exception raised right
      after them. *)

From stdpp Require Import gmap strings list fin_maps.
From Stdlib Require Import Ascii String.

Open Scope string_scope.

(** ** Module-level tables *)

Definition supported_filetypes : list string := ["jpg"].

Definition supported_languages : list string := ["en"; "de"; "it"].

Definition supported_languages_tesseract : gmap string string :=
  list_to_map [("en", "eng"); ("de", "deu"); ("it", "ita");
               ("fr", "fra"); ("es", "spa"); ("sv", "swe")].

(** [x in l] for a [str] and for a value that may be [None]. *)
Definition py_in (x : string) (l : list string) : bool := bool_decide (x ∈ l).

Definition py_in_opt (x : option string) (l : list string) : bool :=
  match x with
  | Some s => py_in s l
  | None => false
  end.

(** [str.lower()]: the letters A-Z are mapped to a-z, the rest is kept. *)
Definition lower_ascii (c : ascii) : ascii :=
  let n := N_of_ascii c in
  if ((65 <=? n) && (n <=? 90))%N then ascii_of_N (n + 32) else c.

Fixpoint lower (s : string) : string :=
  match s with
  | EmptyString => EmptyString
  | String c s' => String (lower_ascii c) (lower s')
  end.

(** [len(s)] *)
Definition len (s : string) : nat := String.length s.

(** ** Faults *)

(** What a handler can raise: web.py's [badrequest] (400), [notfound] (404)
    and [internalerror] (500), or a Python exception nothing catches, which
    web.py answers with a 500 as well. *)
Inductive exn : Type :=
| badrequest (message : string)
| notfound (message : string)
| internalerror (message : string)
| python_error (name : string).

Definition status (e : exn) : nat :=
  match e with
  | badrequest _ => 400
  | notfound _ => 404
  | internalerror _ => 500
  | python_error _ => 500
  end.

(** ** The request *)

(** The part of the form named [image]. A part that carries a file name
    (an empty one included) is a file upload: [web.input] hands it over as
    the field object, whose [.value] is the content and whose [.filename] is
    that name. A part that carries no file name ([filename = None]) is an
    ordinary form field: [web.input] hands it over as the plain [str] of its
    content, and a [str] has neither [.value] nor [.filename]. *)
Record upload : Type := Upload {
  value : string;
  filename : option string
}.

(** [data = web.input(image={})]: every field is optional. Because of the
    default, the key ['image'] is always in [data]; when no image part was
    sent, [data.image] is the empty dict of the default. *)
Record input : Type := Input {
  data_text : option string;
  data_source : option string;
  data_target : option string;
  data_filetype : option string;
  data_image : option upload
}.

Definition image_in_data (data : input) : bool := true.

(** The dict handed to [json.dumps]. *)
Record response : Type := Response {
  detected : string;
  text : string;
  translation : string
}.

(** ** The collaborators *)

Inductive call (A : Type) : Type :=
| returns (a : A)
| raises.
Arguments returns {A} a.
Arguments raises {A}.

(** How [open(path, 'w')], [write] and [close] can go wrong: the file is not
    created at all, or it is created and the write stops, leaving [partial]. *)
Inductive disk_fault : Type :=
| open_fails
| write_fails (partial : string).

(** What one request sees of the outside:
    - [b64decode t] is [base64.b64decode(t)];
    - [uuid4] is [str(uuid.uuid4())];
    - [disk path content] says how storing [content] at [path] goes wrong, if
      it does;
    - [Image_decode bytes] is what [Image.open] makes of a file with these
      bytes;
    - [image_to_string image hint] is [pytesseract.image_to_string], with or
      without its language argument;
    - [gs_detect], [gs_translate] and [gs_get_languages] are goslate's
      [detect], [translate] (target, then the optional source) and
      [get_languages];
    - [json_dumps data] is [json.dumps(data)], which raises on a [str] it
      cannot decode. *)
Record World : Type := {
  b64decode : string -> call string;
  uuid4 : string;
  disk : string -> string -> option disk_fault;
  Image_decode : string -> call string;
  image_to_string : string -> option string -> call string;
  gs_detect : string -> call (option string);
  gs_translate : string -> string -> option string -> call string;
  gs_get_languages : call (gmap string string);
  json_dumps : response -> call string
}.

(** ** State, trace and monad *)

Inductive event : Type :=
| POST_called
| image_saved (path : string)
| read_again
| get_text_called (image_path : string) (source_lang : option string)
| text_extracted (text : string)
| get_language_called (text : option string)
| language_detected (detected_lang : string)
| get_language_name_called (language : string)
| language_named (detected_lang : string)
| get_translation_called (text : option string) (target_lang : string)
                         (source_lang : option string)
| text_translated (translation : string)
| get_json_called (text : option string) (translation : string)
                  (detected_lang : string).

Record state : Type := State {
  uploads : gmap string string;
  trace : list event
}.

Inductive result (A : Type) : Type :=
| Return (a : A)
| Raise (e : exn).
Arguments Return {A} a.
Arguments Raise {A} e.

Definition M (A : Type) : Type := state -> result A * state.

Definition ret {A} (a : A) : M A := fun s => (Return a, s).

Definition raise {A} (e : exn) : M A := fun s => (Raise e, s).

Definition bind {A B} (m : M A) (k : A -> M B) : M B :=
  fun s =>
    match m s with
    | (Return a, s') => k a s'
    | (Raise e, s') => (Raise e, s')
    end.

Declare Scope py_scope.
Delimit Scope py_scope with py.
Notation "'let*' x ':=' m 'in' k" := (bind m (fun x => k))
  (at level 10, x name, m at level 100, k at level 200) : py_scope.
Notation "m ;;; k" := (bind m (fun _ => k))
  (at level 100, k at level 200, right associativity) : py_scope.
Open Scope py_scope.

(** The state after more lines were logged. *)
Definition logged (s : state) (evs : list event) : state :=
  {| uploads := uploads s; trace := trace s ++ evs |}.

Notation "s +> evs" := (logged s evs) (at level 50, left associativity) : py_scope.

(** A [LOGGER] line of the trace. *)
Definition LOGGER (e : event) : M unit :=
  fun s => (Return tt, s +> [e]).

(** A collaborator's call outside any [try]: what it raises is a Python
    exception of the given name. *)
Definition invoke {A} (c : call A) (name : string) : M A :=
  match c with
  | returns a => ret a
  | raises => raise (python_error name)
  end.

(** [try: body / except: handler] with a bare [except]. *)
Definition try_except {A} (body handler : M A) : M A :=
  fun s =>
    match body s with
    | (Return a, s') => (Return a, s')
    | (Raise _, s') => handler s'
    end.

(** [try: body / finally: final]. The [finally] block always runs; an
    exception pending from [body] is raised again when the block ends
    normally, and is replaced by the block's own exception when it raises. *)
Definition try_finally {A B} (body : M A) (final : M B) : M B :=
  fun s =>
    match body s with
    | (Return _, s') => final s'
    | (Raise e, s') =>
        match final s' with
        | (Return _, s'') => (Raise e, s'')
        | (Raise e', s'') => (Raise e', s'')
        end
    end.

(** The run of a handler on an upload directory, from an empty trace. *)
Definition run {A} (m : M A) (dir : gmap string string) : result A * state :=
  m {| uploads := dir; trace := [] |}.

Definition outcome {A} (r : result A * state) : result A := fst r.
Definition final {A} (r : result A * state) : state := snd r.

(** ** The disk *)

(** [out = open(path, 'w'); out.write(content); out.close()] *)
Definition store (w : World) (path content : string) : M unit :=
  fun s =>
    match disk w path content with
    | None =>
        (Return tt, {| uploads := <[path := content]> (uploads s); trace := trace s |})
    | Some open_fails => (Raise (python_error "IOError"), s)
    | Some (write_fails partial) =>
        (Raise (python_error "IOError"),
         {| uploads := <[path := partial]> (uploads s); trace := trace s |})
    end.

(** [Image.open(image_path)]: the file must be there and must decode. *)
Definition Image_open (w : World) (image_path : string) : M string :=
  fun s =>
    match uploads s !! image_path with
    | None => (Raise (python_error "IOError"), s)
    | Some bytes => invoke (Image_decode w bytes) "IOError" s
    end.

(** ** The static methods of [Enrich] *)

(** Lines 195-238. *)
Definition get_text (w : World) (image_path : string) (source_lang : option string)
  : M string :=
  LOGGER (get_text_called image_path source_lang) ;;;
  if (len image_path =? 0)%nat then raise (internalerror "Path to image is not valid.")
  else
    let* image :=
      try_except (Image_open w image_path)
                 (raise (internalerror "Could not open image.")) in
    let* text :=
      try_except (invoke (image_to_string w image source_lang) "Exception")
                 (raise (internalerror "Could not extract text from image.")) in
    if (len text <=? 0)%nat then raise (notfound "No text detected in image.")
    else
      LOGGER (text_extracted text) ;;;
      ret text.

(** Lines 241-279. *)
Definition get_translation (w : World) (text : option string) (target_lang : string)
                           (source_lang : option string) : M string :=
  LOGGER (get_translation_called text target_lang source_lang) ;;;
  match text with
  | None => raise (internalerror "No text specified.")
  | Some text =>
      if (len text =? 0)%nat then raise (internalerror "No text specified.")
      else if (len target_lang =? 0)%nat
      then raise (internalerror "Target language is not valid.")
      else
        let* translation :=
          try_except (invoke (gs_translate w text target_lang source_lang) "Exception")
                     (raise (internalerror "Could not translate image.")) in
        LOGGER (text_translated translation) ;;;
        ret translation
  end.

(** Lines 282-307. *)
Definition get_language (w : World) (text : option string) : M string :=
  LOGGER (get_language_called text) ;;;
  match text with
  | None => raise (internalerror "No text specified.")
  | Some text =>
      if (len text =? 0)%nat then raise (internalerror "No text specified.")
      else
        let* detected_lang := invoke (gs_detect w text) "Exception" in
        let detected_lang := match detected_lang with
                             | None => "unk"
                             | Some l => l
                             end in
        LOGGER (language_detected detected_lang) ;;;
        ret detected_lang
  end.

(** Lines 330-333: ['Unknown'] unless goslate knows the code. *)
Definition display_name (gs_languages : gmap string string) (language : string) : string :=
  match gs_languages !! language with
  | Some name => "detected:" ++ name
  | None => "Unknown"
  end.

(** Lines 310-336. *)
Definition get_language_name (w : World) (language : string) : M string :=
  LOGGER (get_language_name_called language) ;;;
  if (len language =? 0)%nat then raise (internalerror "No language specified.")
  else
    let* gs_languages := invoke (gs_get_languages w) "Exception" in
    let detected_lang := display_name gs_languages language in
    LOGGER (language_named detected_lang) ;;;
    ret detected_lang.

(** Lines 339-373. *)
Definition get_json (w : World) (text : option string)
                    (translation detected_lang : string) : M response :=
  LOGGER (get_json_called text translation detected_lang) ;;;
  match text with
  | None => raise (internalerror "No text specified.")
  | Some text =>
      if (len text =? 0)%nat then raise (internalerror "No text specified.")
      else if (len translation =? 0)%nat
      then raise (internalerror "No translation specified.")
      else if (len detected_lang =? 0)%nat
      then raise (internalerror "Detected language is not valid.")
      else
        let data := {| detected := detected_lang; text := text;
                       translation := translation |} in
        let* _ := invoke (json_dumps w data) "UnicodeDecodeError" in
        ret data
  end.

(** ** [Enrich.POST] *)

(** Lines 105-109: the declared source language, lower-cased, kept only when
    it is a supported language. *)
Definition declared_source (data : input) : option string :=
  let source_lang := match data_source data with
                     | Some source => Some (lower source)
                     | None => None
                     end in
  if negb (py_in_opt source_lang supported_languages) then None else source_lang.

(** [supported_languages_tesseract[k]] *)
Definition tesseract_code (k : string) : M string :=
  match supported_languages_tesseract !! k with
  | Some code => ret code
  | None => raise (python_error "KeyError")
  end.

(** Lines 144-159, the body of the [finally] block: both extraction passes
    and the detection between them. It yields [text_from_image] and
    [detected_lang]. *)
Definition read_image (w : World) (source_lang : option string)
                      (image_dir image_name : string) : M (option string * string) :=
  let final_image_path := image_dir ++ "/" ++ image_name in
  LOGGER (image_saved (image_dir ++ "/" ++ image_name)) ;;;
  let* text_from_image :=
    match source_lang with
    | None => get_text w final_image_path None
    | Some source_lang =>
        let* code := tesseract_code source_lang in
        get_text w final_image_path (Some code)
    end in
  let* detected_lang := get_language w (Some text_from_image) in
  let* text_from_image :=
    (if bool_decide (source_lang = None)
        && bool_decide (is_Some (supported_languages_tesseract !! detected_lang))
     then
       LOGGER read_again ;;;
       let* code := tesseract_code detected_lang in
       get_text w final_image_path (Some code)
     else ret text_from_image) in
  let* detected_lang :=
    (if negb (py_in detected_lang supported_languages)
     then get_language_name w detected_lang
     else ret detected_lang) in
  ret (Some text_from_image, detected_lang).

(** Lines 112-130: the checks on the uploaded part. They yield the content
    of the part and its declared file type, lower-cased. The first of them
    reads [image.value]: that raises [AttributeError] on the empty dict of
    the default and on the plain [str] of a part without a file name. *)
Definition checked_upload (data : input) : result (string * string) :=
  match data_image data with
  | None => Raise (python_error "AttributeError")
  | Some image =>
      match filename image with
      | None => Raise (python_error "AttributeError")
      | Some image_filename =>
          if (len (value image) =? 0)%nat
          then Raise (badrequest "No image to process. No value.")
          else if (len image_filename =? 0)%nat
          then Raise (badrequest "No image to process. No filename.")
          else
            match data_filetype data with
            | Some filetype =>
                let filetype := lower filetype in
                if negb (py_in filetype supported_filetypes)
                then Raise (badrequest "No support for this filetype.")
                else Return (value image, filetype)
            | None => Raise (badrequest "No file-type specified.")
            end
      end
  end.

(** A result that is already there, as a step of the handler. *)
Definition lift {A} (r : result A) : M A := fun s => (r, s).

(** Lines 111-159: the image branch. *)
Definition handle_image (w : World) (data : input) (source_lang : option string)
  : M (option string * string) :=
  let* upload := lift (checked_upload data) in
  let content := fst upload in
  let filetype := snd upload in
  let image_dir := "uploads" in
  let image_id := uuid4 w in
  let image_name := image_id ++ "." ++ filetype in
  try_finally
    (try_except
       (store w (image_dir ++ "/" ++ image_name) content)
       (raise (internalerror "Server: Could not store image.")))
    (read_image w source_lang image_dir image_name).

(** The local variables of [POST] that are still in use at line 167. *)
Record locals : Type := Locals {
  corrected : bool;
  corrected_text : option string;
  source_lang : option string;
  text_from_image : option string;
  detected_lang : string
}.

(** Lines 90-165: everything the handler does before it looks at the target
    language. *)
Definition extract_and_detect (w : World) (data : input) : M locals :=
  LOGGER POST_called ;;;
  let text_from_image := None in
  let detected_lang := "unk" in
  let* cc :=
    match data_text data with
    | Some t =>
        let* corrected_text := invoke (b64decode w t) "TypeError" in
        ret (Some corrected_text, true)
    | None => ret (None, false)
    end in
  let corrected_text := fst cc in
  let corrected := snd cc in
  let source_lang := declared_source data in
  let* td :=
    (if image_in_data data && negb corrected
     then handle_image w data source_lang
     else ret (text_from_image, detected_lang)) in
  let text_from_image := fst td in
  let detected_lang := snd td in
  let* detected_lang :=
    (if corrected
     then
       let* detected_lang := get_language w corrected_text in
       if negb (py_in detected_lang supported_languages)
       then get_language_name w detected_lang
       else ret detected_lang
     else ret detected_lang) in
  ret {| corrected := corrected; corrected_text := corrected_text;
         source_lang := source_lang; text_from_image := text_from_image;
         detected_lang := detected_lang |}.

(** Lines 167-192: the target language, the translation and the answer. *)
Definition translate_and_answer (w : World) (data : input) (l : locals) : M response :=
  match data_target data with
  | Some target =>
      let target_lang := lower target in
      if negb (py_in target_lang supported_languages)
      then raise (badrequest "This target language is not supported.")
      else
        let* translation :=
          match source_lang l with
          | None =>
              if negb (corrected l)
              then get_translation w (text_from_image l) target_lang None
              else get_translation w (corrected_text l) target_lang None
          | Some source_lang =>
              if negb (corrected l)
              then get_translation w (text_from_image l) target_lang (Some source_lang)
              else get_translation w (corrected_text l) target_lang (Some source_lang)
          end in
        if negb (corrected l)
        then get_json w (text_from_image l) translation (detected_lang l)
        else get_json w (corrected_text l) translation (detected_lang l)
  | None => raise (badrequest "No language to translate into specified.")
  end.

(** Lines 64-192. *)
Definition POST (w : World) (data : input) : M response :=
  let* l := extract_and_detect w data in
  translate_and_answer w data l.

(** ** Typed faults of the extractor *)

(** The ways [get_text] fails on the upload directory [dir]. *)
Inductive extraction_fault (w : World) (dir : gmap string string)
                           (image_path : string) (hint : option string) : exn -> Prop :=
| path_not_valid :
    image_path = "" ->
    extraction_fault w dir image_path hint (internalerror "Path to image is not valid.")
| file_missing :
    image_path <> "" ->
    dir !! image_path = None ->
    extraction_fault w dir image_path hint (internalerror "Could not open image.")
| file_undecodable bytes :
    image_path <> "" ->
    dir !! image_path = Some bytes ->
    Image_decode w bytes = raises ->
    extraction_fault w dir image_path hint (internalerror "Could not open image.")
| engine_failure bytes image :
    image_path <> "" ->
    dir !! image_path = Some bytes ->
    Image_decode w bytes = returns image ->
    image_to_string w image hint = raises ->
    extraction_fault w dir image_path hint
      (internalerror "Could not extract text from image.")
| no_text_detected bytes image :
    image_path <> "" ->
    dir !! image_path = Some bytes ->
    Image_decode w bytes = returns image ->
    image_to_string w image hint = returns "" ->
    extraction_fault w dir image_path hint (notfound "No text detected in image.").

(** [get_text] succeeds with [text] on the upload directory [dir]. *)
Definition extracts (w : World) (dir : gmap string string)
                    (image_path : string) (hint : option string) (text : string) : Prop :=
  exists bytes image,
    dir !! image_path = Some bytes /\
    Image_decode w bytes = returns image /\
    image_to_string w image hint = returns text /\
    text <> "".


(** ** Readings of a trace *)

Definition pass_of (e : event) : option (string * option string) :=
  match e with
  | get_text_called p h => Some (p, h)
  | _ => None
  end.

Definition text_of (e : event) : option string :=
  match e with
  | text_extracted t => Some t
  | _ => None
  end.

Definition guess_of (e : event) : option string :=
  match e with
  | language_detected g => Some g
  | _ => None
  end.

Definition detection_of (e : event) : option (option string) :=
  match e with
  | get_language_called x => Some x
  | _ => None
  end.

Definition translation_of (e : event) : option (option string * string * option string) :=
  match e with
  | get_translation_called x y z => Some (x, y, z)
  | _ => None
  end.

(** The number of extraction passes, the texts they produced, the texts the
    detector was asked about, what it guessed, and the translator's calls. *)
Definition passes (tr : list event) : nat := List.length (omap pass_of tr).
Definition extracted (tr : list event) : list string := omap text_of tr.
Definition detections (tr : list event) : list (option string) := omap detection_of tr.
Definition guessed (tr : list event) : list string := omap guess_of tr.
Definition translations (tr : list event)
  : list (option string * string * option string) := omap translation_of tr.

(** The codes the OCR engine has an identifier for. *)
Definition ocr_codes : list string := ["en"; "de"; "it"; "fr"; "es"; "sv"].

(** The request with the declared source language taken away, and the
    request with another image part and file type. *)
Definition without_source (data : input) : input :=
  {| data_text := data_text data; data_source := None;
     data_target := data_target data; data_filetype := data_filetype data;
     data_image := data_image data |}.

Definition with_image (data : input) (image : option upload)
                      (filetype : option string) : input :=
  {| data_text := data_text data; data_source := data_source data;
     data_target := data_target data; data_filetype := filetype;
     data_image := image |}.

(** [gs.detect] answers [g] on [text], ['unk'] standing for no answer. *)
Definition guesses (w : World) (text g : string) : Prop :=
  exists o, gs_detect w text = returns o /\ g = default "unk" o.

(** The text the translation and the answer work on. *)
Definition active_text (l : locals) : option string :=
  if corrected l then corrected_text l else text_from_image l.

(** The lines of the trace, by the stage that writes them. *)
Definition extraction_event (e : event) : bool :=
  match e with
  | image_saved _ | read_again | get_text_called _ _ | text_extracted _ => true
  | _ => false
  end.

Definition answer_event (e : event) : bool :=
  match e with
  | get_translation_called _ _ _ | text_translated _ | get_json_called _ _ _ => true
  | _ => false
  end.

(** Lines 167-172 and 185-187: the fault of a request whose target language
    is missing or is not a supported language. *)
Definition target_fault (data : input) : option exn :=
  match data_target data with
  | Some target =>
      if py_in (lower target) supported_languages then None
      else Some (badrequest "This target language is not supported.")
  | None => Some (badrequest "No language to translate into specified.")
  end.

(** The display-name fallback of lines 158-159 and 164-165 on the guess [g]:
    the lines it logs and what it yields. *)
Inductive fallback (w : World) (g : string) : list event -> result string -> Prop :=
| fallback_supported :
    g ∈ supported_languages ->
    fallback w g [] (Return g)
| fallback_named gs_languages :
    g ∉ supported_languages ->
    g <> "" ->
    gs_get_languages w = returns gs_languages ->
    fallback w g [get_language_name_called g; language_named (display_name gs_languages g)]
             (Return (display_name gs_languages g))
| fallback_fault e :
    g ∉ supported_languages ->
    status e = 500 ->
    fallback w g [get_language_name_called g] (Raise e).

(** The engine identifier of the first pass: the one of the declared source
    language, if there is one. *)
Definition first_hint (source_lang : option string) : option string :=
  match source_lang with
  | Some l => supported_languages_tesseract !! l
  | None => None
  end.

(** [text_from_image] and [detected_lang] once the fallback is through. *)
Definition finish (text : string) (r : result string) : result (option string * string) :=
  match r with
  | Return d => Return (Some text, d)
  | Raise e => Raise e
  end.

(** The runs of the [finally] block on the upload directory [dir]: the lines
    logged after ['Image saved in'] and the block's result. *)
Inductive two_pass (w : World) (dir : gmap string string) (p : string)
                   (src : option string)
  : list event -> result (option string * string) -> Prop :=
| first_pass_fault e :
    extraction_fault w dir p (first_hint src) e ->
    two_pass w dir p src [get_text_called p (first_hint src)] (Raise e)
| detection_fault t1 e :
    extracts w dir p (first_hint src) t1 ->
    status e = 500 ->
    two_pass w dir p src
      [get_text_called p (first_hint src); text_extracted t1;
       get_language_called (Some t1)]
      (Raise e)
| single_pass t1 g evs r :
    extracts w dir p (first_hint src) t1 ->
    guesses w t1 g ->
    src <> None \/ supported_languages_tesseract !! g = None ->
    fallback w g evs r ->
    two_pass w dir p src
      ([get_text_called p (first_hint src); text_extracted t1;
        get_language_called (Some t1); language_detected g] ++ evs)
      (finish t1 r)
| second_pass_fault t1 g code e :
    src = None ->
    extracts w dir p None t1 ->
    guesses w t1 g ->
    supported_languages_tesseract !! g = Some code ->
    extraction_fault w dir p (Some code) e ->
    two_pass w dir p src
      [get_text_called p None; text_extracted t1;
       get_language_called (Some t1); language_detected g;
       read_again; get_text_called p (Some code)]
      (Raise e)
| second_pass t1 g code t2 evs r :
    src = None ->
    extracts w dir p None t1 ->
    guesses w t1 g ->
    supported_languages_tesseract !! g = Some code ->
    extracts w dir p (Some code) t2 ->
    fallback w g evs r ->
    two_pass w dir p src
      ([get_text_called p None; text_extracted t1;
        get_language_called (Some t1); language_detected g;
        read_again; get_text_called p (Some code); text_extracted t2] ++ evs)
      (finish t2 r).

(** Where the upload is stored: ['uploads/<uuid>.<filetype>']. *)
Definition upload_path (w : World) (filetype : string) : string :=
  "uploads" ++ "/" ++ (uuid4 w ++ "." ++ filetype).

(** The upload directory after the attempt to store [content] at [path]. *)
Definition after_store (w : World) (path content : string)
                       (dir : gmap string string) : gmap string string :=
  match disk w path content with
  | None => <[path := content]> dir
  | Some open_fails => dir
  | Some (write_fails partial) => <[path := partial]> dir
  end.

(** What comes out of the [try] statement when storing raised: the fault of
    the [finally] block if it has one, the storage fault otherwise. *)
Definition pending {A B} (r : result A) : result B :=
  match r with
  | Return _ => Raise (internalerror "Server: Could not store image.")
  | Raise e => Raise e
  end.

(** The lines [evs] and the result [res] of lines 167-192 on the locals [l]. *)
Definition answers (w : World) (data : input) (l : locals)
                   (evs : list event) (res : result response) : Prop :=
  Forall (fun e => answer_event e = true) evs /\
  (forall x y z, get_translation_called x y z ∈ evs ->
     x = active_text l /\ z = source_lang l /\
     exists target, data_target data = Some target /\ y = lower target) /\
  (forall target, data_target data = Some target ->
     lower target ∈ supported_languages ->
     omap translation_of evs = [(active_text l, lower target, source_lang l)]) /\
  match res with
  | Return resp =>
      exists target txt,
        data_target data = Some target /\ lower target ∈ supported_languages /\
        active_text l = Some txt /\
        gs_translate w txt (lower target) (source_lang l) = returns (translation resp) /\
        text resp = txt /\ detected resp = detected_lang l /\
        evs = [get_translation_called (Some txt) (lower target) (source_lang l);
               text_translated (translation resp);
               get_json_called (Some txt) (translation resp) (detected_lang l)]
  | Raise e =>
      match target_fault data with
      | Some e' => e = e' /\ evs = []
      | None => status e = 500
      end
  end.

(** The locals of an image-mode request and of a corrected-text request. *)
Definition image_locals (data : input) (td : option string * string) : locals :=
  {| corrected := false; corrected_text := None;
     source_lang := declared_source data;
     text_from_image := fst td; detected_lang := snd td |}.

Definition corrected_locals (data : input) (c d : string) : locals :=
  {| corrected := true; corrected_text := Some c;
     source_lang := declared_source data;
     text_from_image := None; detected_lang := d |}.

(** ** A concrete world and concrete requests *)

Module Demo.

(** goslate's table of language names, restricted to a few codes. *)
Definition names : gmap string string :=
  list_to_map [("en", "English"); ("de", "German"); ("it", "Italian");
               ("fr", "French"); ("es", "Spanish"); ("sv", "Swedish")].

(** The dict of the answer, written out field by field. *)
Definition quoted (s : string) : string :=
  String "034"%char (s ++ String "034"%char "").

Definition dumps (data : response) : string :=
  "{" ++ quoted "detected" ++ ": " ++ quoted (detected data) ++ ", "
      ++ quoted "text" ++ ": " ++ quoted (text data) ++ ", "
      ++ quoted "translation" ++ ": " ++ quoted (translation data) ++ "}".

(** A world whose disk behaves as [fault] says, whose OCR engine is
    [engine] and whose detector always answers [guess]. Images decode to
    their own bytes; the translator prefixes the text with the target;
    every text can be serialised. *)
Definition world (fault : option disk_fault)
                 (engine : option string -> call string)
                 (guess : call (option string)) : World :=
  {| b64decode := fun t =>
       if String.eqb t "SGFsbG8gV2VsdA==" then returns "Hallo Welt"
       else if String.eqb t "" then returns ""
       else raises;
     uuid4 := "16fd2706-8baf-433b-82eb-8c7fada847da";
     disk := fun _ _ => fault;
     Image_decode := fun bytes => returns bytes;
     image_to_string := fun _ hint => engine hint;
     gs_detect := fun _ => guess;
     gs_translate := fun t target _ => returns (target ++ ":" ++ t);
     gs_get_languages := returns names;
     json_dumps := fun data => returns (dumps data) |}.

(** An engine that reads a photographed sign well only with a hint. *)
Definition reads (plain hinted : string) (hint : option string) : call string :=
  match hint with
  | None => returns plain
  | Some _ => returns hinted
  end.

Definition photo : upload := {| value := "JFIF..."; filename := Some "sign.jpg" |}.

Definition empty_photo : upload := {| value := ""; filename := Some "sign.jpg" |}.


Definition path : string := "uploads/16fd2706-8baf-433b-82eb-8c7fada847da.jpg".

(** [image=photo, filetype=jpg, target=de] *)
Definition image_request (source : option string) (target : option string) : input :=
  {| data_text := None; data_source := source; data_target := target;
     data_filetype := Some "jpg"; data_image := Some photo |}.

(** [text=base64("Hallo Welt")] with an optional image beside it. *)
Definition text_request (source target : option string) (image : option upload)
  : input :=
  {| data_text := Some "SGFsbG8gV2VsdA=="; data_source := source;
     data_target := target; data_filetype := None; data_image := image |}.

Definition english : World :=
  world None (reads "Hello wor1d" "Hello world") (returns (Some "en")).

Definition french : World :=
  world None (reads "Bonjour 1e monde" "Bonjour le monde") (returns (Some "fr")).

Definition german : World :=
  world None (fun _ => raises) (returns (Some "de")).

Definition blank : World :=
  world None (fun _ => returns "") (returns (Some "en")).

Definition broken_engine : World :=
  world None (fun _ => raises) (returns (Some "en")).

Definition full_disk : World :=
  world (Some (write_fails "")) (fun _ => returns "") (returns (Some "en")).

End Demo.


(** ** Further notions: faults, case, and a small program logic *)

#[global] Instance exn_eq_dec : EqDecision exn.
Proof. solve_decision. Defined.

(** The errors of web.py the handler and its methods raise on the way of a
    request. Not among them: the errors of three guards that no call from
    [POST] trips (['Path to image is not valid.'], ['Target language is not
    valid.'], ['Detected language is not valid.']). *)
Definition faults : list exn :=
  [badrequest "No image to process. No value.";
   badrequest "No image to process. No filename.";
   badrequest "No support for this filetype.";
   badrequest "No file-type specified.";
   badrequest "This target language is not supported.";
   badrequest "No language to translate into specified.";
   notfound "No text detected in image.";
   internalerror "Server: Could not store image.";
   internalerror "Could not open image.";
   internalerror "Could not extract text from image.";
   internalerror "No text specified.";
   internalerror "No language specified.";
   internalerror "Could not translate image.";
   internalerror "No translation specified."].

(** A fault is accounted for when it is one of [faults], or an exception of
    Python or of a collaborator that no [except] clause of the handler
    catches. *)
Definition accounted (e : exn) : Prop :=
  e ∈ faults \/ exists name, e = python_error name.

(** [m] only returns values that satisfy [Q] and only raises exceptions that
    satisfy [P], in whatever state it is run. *)
Definition yields {A} (m : M A) (Q : A -> Prop) (P : exn -> Prop) : Prop :=
  forall s,
    match fst (m s) with
    | Return a => Q a
    | Raise e => P e
    end.

(** Two requests that differ at most in the letter case of [source],
    [target] and [filetype]. *)
Definition same_up_to_case (data data' : input) : Prop :=
  data_text data = data_text data' /\
  data_image data = data_image data' /\
  lower <$> data_source data = lower <$> data_source data' /\
  lower <$> data_target data = lower <$> data_target data' /\
  lower <$> data_filetype data = lower <$> data_filetype data'.

(** More requests: an upload with a given file type and file name, and a
    request with nothing in it but a target. *)
Definition upload_request (filetype : option string) (name : string) : input :=
  {| data_text := None; data_source := None; data_target := Some "de";
     data_filetype := filetype;
     data_image := Some {| value := "JFIF..."; filename := Some name |} |}.

Definition bare_request : input :=
  {| data_text := None; data_source := None; data_target := Some "de";
     data_filetype := None; data_image := None |}.

(** A state whose upload directory holds the photo. *)
Definition photo_stored : state :=
  {| uploads := {[Demo.path := "JFIF..."]}; trace := [] |}.

(** [text_from_image] and [detected_lang] as the [finally] block leaves
    them: a non-empty text and a non-empty name. *)
Definition read_well (td : option string * string) : Prop :=
  (exists t, fst td = Some t /\ t <> "") /\ snd td <> "".

(** The locals at line 167: the text to translate is there and is not
    empty, and neither is the detected language. *)
Definition ready (l : locals) : Prop :=
  (exists t, active_text l = Some t /\ t <> "") /\ detected_lang l <> "".
(** ** Basic facts *)

Lemma logged_logged s a b : s +> a +> b = s +> (a ++ b).
Proof. unfold logged; simpl. by rewrite <- app_assoc. Qed.

Lemma logged_nil s : s +> [] = s.
Proof. destruct s; unfold logged; simpl. by rewrite app_nil_r. Qed.

Lemma len_zero s : (len s =? 0)%nat = true <-> s = "".
Proof. destruct s; simpl; split; intros; congruence. Qed.

Lemma len_zero_false s : (len s =? 0)%nat = false <-> s <> "".
Proof. destruct s; simpl; split; intros; congruence. Qed.

Lemma len_le_zero s : (len s <=? 0)%nat = (len s =? 0)%nat.
Proof. by destruct s. Qed.

Lemma path_not_empty dir name : dir ++ "/" ++ name <> "".
Proof. destruct dir; discriminate. Qed.

Lemma get_text_inv w p h s r s' :
  get_text w p h s = (r, s') ->
  match r with
  | Return t => s' = s +> [get_text_called p h; text_extracted t]
                /\ extracts w (uploads s) p h t
  | Raise e => s' = s +> [get_text_called p h]
               /\ extraction_fault w (uploads s) p h e
  end.
Proof.
  unfold get_text, Image_open, try_except, invoke, bind, LOGGER, ret, raise.
  destruct (len p =? 0)%nat eqn:Hp.
  { intros [= <- <-]. split; [done|]. constructor. by apply len_zero. }
  apply len_zero_false in Hp. cbn [uploads logged].
  destruct (uploads s !! p) as [bytes|] eqn:Hf; cbn;
    [|intros [= <- <-]; split; [done|by constructor]].
  destruct (Image_decode w bytes) as [image|] eqn:Hd; cbn;
    [|intros [= <- <-]; split; [done|by econstructor]].
  destruct (image_to_string w image h) as [t|] eqn:Ho; cbn;
    [|intros [= <- <-]; split; [done|by econstructor]].
  rewrite len_le_zero. destruct (len t =? 0)%nat eqn:Ht.
  - apply len_zero in Ht; subst t. intros [= <- <-]. split; [done|by econstructor].
  - apply len_zero_false in Ht. intros [= <- <-].
    split; [by rewrite logged_logged|]. by exists bytes, image.
Qed.

(** An event of one kind is not among the lines of an explicit trace of
    other kinds. *)
Ltac absent :=
  intros;
  repeat match goal with
         | |- _ ∉ _ => intros ?
         | H : _ ∈ [] |- _ => by apply elem_of_nil in H
         | H : _ ∈ _ :: _ |- _ => apply elem_of_cons in H as [H|H]; [discriminate H|]
         end.

Lemma py_in_true x l : py_in x l = true <-> x ∈ l.
Proof. unfold py_in. apply bool_decide_eq_true. Qed.

Lemma py_in_false x l : py_in x l = false <-> x ∉ l.
Proof. unfold py_in. apply bool_decide_eq_false. Qed.

Lemma get_language_inv w t s r s' :
  get_language w (Some t) s = (r, s') ->
  match r with
  | Return g => s' = s +> [get_language_called (Some t); language_detected g]
                /\ t <> "" /\ guesses w t g
  | Raise e => s' = s +> [get_language_called (Some t)] /\ status e = 500
  end.
Proof.
  unfold get_language, invoke, bind, LOGGER, ret, raise.
  destruct (len t =? 0)%nat eqn:Ht; [by intros [= <- <-]|].
  apply len_zero_false in Ht.
  destruct (gs_detect w t) as [o|] eqn:Hg; cbn; [|by intros [= <- <-]].
  intros [= <- <-]. rewrite logged_logged. split_and!; [done..|]. by exists o.
Qed.

Lemma fallback_inv w g s r s' :
  (if negb (py_in g supported_languages) then get_language_name w g else ret g) s
    = (r, s') ->
  exists evs, s' = s +> evs /\ fallback w g evs r.
Proof.
  destruct (py_in g supported_languages) eqn:Hin; cbn [negb].
  - intros [= <- <-]. exists []. rewrite logged_nil. apply py_in_true in Hin.
    split; [done|by constructor].
  - apply py_in_false in Hin.
    unfold get_language_name, invoke, bind, LOGGER, ret, raise.
    destruct (len g =? 0)%nat eqn:Hg;
      [intros [= <- <-]; eexists; split; [done|by constructor]|].
    apply len_zero_false in Hg.
    destruct (gs_get_languages w) as [m|] eqn:Hm; cbn;
      [|intros [= <- <-]; eexists; split; [done|by constructor]].
    intros [= <- <-]. rewrite logged_logged. eexists; split; [done|by constructor].
Qed.

Lemma get_translation_inv w x tl src s r s' :
  get_translation w x tl src s = (r, s') ->
  match r with
  | Return tr => exists txt, x = Some txt /\ txt <> "" /\
                   gs_translate w txt tl src = returns tr /\
                   s' = s +> [get_translation_called x tl src; text_translated tr]
  | Raise e => s' = s +> [get_translation_called x tl src] /\ status e = 500
  end.
Proof.
  unfold get_translation, try_except, invoke, bind, LOGGER, ret, raise.
  destruct x as [txt|]; [|by intros [= <- <-]].
  destruct (len txt =? 0)%nat eqn:Ht; [by intros [= <- <-]|].
  apply len_zero_false in Ht.
  destruct (len tl =? 0)%nat; [by intros [= <- <-]|].
  destruct (gs_translate w txt tl src) as [tr|] eqn:Hg; cbn; [|by intros [= <- <-]].
  intros [= <- <-]. exists txt. by rewrite logged_logged.
Qed.

Lemma get_json_inv w x tr d s r s' :
  get_json w x tr d s = (r, s') ->
  s' = s +> [get_json_called x tr d] /\
  match r with
  | Return resp => exists txt, x = Some txt /\ txt <> "" /\ tr <> "" /\ d <> "" /\
                     resp = {| detected := d; text := txt; translation := tr |}
  | Raise e => status e = 500
  end.
Proof.
  unfold get_json, invoke, bind, LOGGER, ret, raise.
  destruct x as [txt|]; [|by intros [= <- <-]].
  destruct (len txt =? 0)%nat eqn:Ht; [by intros [= <- <-]|].
  destruct (len tr =? 0)%nat eqn:Htr; [by intros [= <- <-]|].
  destruct (len d =? 0)%nat eqn:Hd; [by intros [= <- <-]|].
  apply len_zero_false in Ht, Htr, Hd.
  destruct (json_dumps w _); [|by intros [= <- <-]].
  intros [= <- <-]. split; [done|]. by exists txt.
Qed.

(** Lines 174-183 choose the text by [corrected] and pass the declared
    source language only when there is one. *)
Lemma translate_and_answer_eq w data l :
  translate_and_answer w data l =
  match data_target data with
  | Some target =>
      if negb (py_in (lower target) supported_languages)
      then raise (badrequest "This target language is not supported.")
      else
        let* translation :=
          get_translation w (active_text l) (lower target) (source_lang l) in
        get_json w (active_text l) translation (detected_lang l)
  | None => raise (badrequest "No language to translate into specified.")
  end.
Proof.
  unfold translate_and_answer, active_text.
  destruct (data_target data); [|done].
  destruct (negb _); [done|].
  by destruct (source_lang l), (corrected l).
Qed.

Lemma translate_and_answer_fault w data l s e :
  target_fault data = Some e ->
  translate_and_answer w data l s = (Raise e, s).
Proof.
  rewrite translate_and_answer_eq. unfold target_fault.
  destruct (data_target data); [|by intros [= <-]].
  destruct (py_in _ _); [done|]. by intros [= <-].
Qed.

Lemma translate_and_answer_inv w data l s r s' :
  translate_and_answer w data l s = (r, s') ->
  exists evs, s' = s +> evs /\ answers w data l evs r.
Proof.
  rewrite translate_and_answer_eq. unfold answers, target_fault.
  destruct (data_target data) as [target|];
    [|intros [= <- <-]; exists []; rewrite logged_nil;
      split_and!; [done|constructor|by intros ??? ?%elem_of_nil|done..]].
  destruct (py_in (lower target) supported_languages) eqn:Hin; cbn [negb].
  2:{ intros [= <- <-]. exists []. rewrite logged_nil. apply py_in_false in Hin.
      split_and!; [done|constructor|by intros ??? ?%elem_of_nil| |done..].
      by intros ? [= <-] ?. }
  apply py_in_true in Hin. unfold bind.
  destruct (get_translation _ _ _ _ _) as [[tr|e] s1] eqn:Ht;
    apply get_translation_inv in Ht.
  - destruct Ht as (txt & Hx & Htxt & Hg & ->).
    intros [-> Hj]%get_json_inv. rewrite logged_logged. cbn [app]. eexists.
    split; [done|]. split; [by repeat constructor|]. split.
    { intros x y z. rewrite !elem_of_cons, elem_of_nil.
      intros [[= -> -> ->]|[?|[?|[]]]]; try discriminate. eauto. }
    split; [by intros ? [= <-] _|].
    destruct r as [resp|e]; [|done].
    destruct Hj as (txt' & Hx' & _ & _ & _ & ->). rewrite Hx in Hx'.
    injection Hx' as <-. exists target, txt. rewrite Hx. by split_and!.
  - destruct Ht as [-> He]. intros [= <- <-]. eexists. split; [done|].
    split; [by repeat constructor|]. split; [|split; [by intros ? [= <-] _|done]].
    intros x y z. rewrite !elem_of_cons, elem_of_nil.
    intros [[= -> -> ->]|[]]. eauto.
Qed.

Lemma answers_fault w data l evs res e :
  target_fault data = Some e ->
  answers w data l evs res ->
  res = Raise e /\ evs = [].
Proof.
  intros Hf (_ & _ & _ & Hres). destruct res as [resp|e'].
  - destruct Hres as (target & txt & Ht & Hin%py_in_true & _).
    unfold target_fault in Hf. by rewrite Ht, Hin in Hf.
  - rewrite Hf in Hres. by destruct Hres as [-> ->].
Qed.

Lemma declared_source_cases data :
  declared_source data = None \/
  exists l code, declared_source data = Some l /\ l ∈ supported_languages /\
                 supported_languages_tesseract !! l = Some code.
Proof.
  unfold declared_source. destruct (data_source data) as [src|]; [|by left].
  cbn [py_in_opt]. destruct (py_in (lower src) supported_languages) eqn:Hin; [|by left].
  right. apply py_in_true in Hin. exists (lower src).
  unfold supported_languages in Hin. rewrite !elem_of_cons, elem_of_nil in Hin.
  destruct Hin as [->|[->|[->|[]]]]; eexists; (split_and!; [done|set_solver|done]).
Qed.

Lemma first_pass_eq w data p :
  match declared_source data with
  | None => get_text w p None
  | Some l => let* code := tesseract_code l in get_text w p (Some code)
  end = get_text w p (first_hint (declared_source data)).
Proof.
  destruct (declared_source_cases data) as [->|(l & code & -> & _ & Hc)]; [done|].
  unfold bind, tesseract_code, first_hint. by rewrite Hc.
Qed.

Lemma read_image_inv w data name s r s' :
  read_image w (declared_source data) "uploads" name s = (r, s') ->
  let p := "uploads" ++ "/" ++ name in
  exists evs, s' = s +> (image_saved p :: evs) /\
              two_pass w (uploads s) p (declared_source data) evs r.
Proof.
  intros Hrun p. revert Hrun. unfold read_image. fold p.
  rewrite first_pass_eq.
  unfold bind at 1. cbn [LOGGER]. unfold bind at 1.
  destruct (get_text _ _ _ _) as [[t1|e] s1] eqn:H1; apply get_text_inv in H1;
    destruct H1 as [-> H1]; rewrite logged_logged; cbn [app uploads logged] in *.
  2:{ intros [= <- <-]. eexists. split; [done|]. by constructor. }
  unfold bind at 1.
  destruct (get_language _ _ _) as [[g|e] s2] eqn:H2; apply get_language_inv in H2.
  2:{ destruct H2 as [-> He]. intros [= <- <-]. rewrite logged_logged.
      eexists. split; [done|]. by constructor. }
  destruct H2 as (-> & _ & Hg). rewrite logged_logged. cbn [app].
  unfold bind at 1.
  destruct (bool_decide (declared_source data = None)
            && bool_decide (is_Some (supported_languages_tesseract !! g))) eqn:Hretry.
  - apply andb_true_iff in Hretry as [Hsrc%bool_decide_eq_true [code Hcode]%bool_decide_eq_true].
    rewrite Hsrc in *. cbn [first_hint] in *.
    unfold bind at 1. cbn [LOGGER]. unfold bind at 1, tesseract_code. rewrite Hcode.
    cbn [ret]. rewrite logged_logged. cbn [app].
    destruct (get_text _ _ _ _) as [[t2|e] s3] eqn:H3; apply get_text_inv in H3;
      destruct H3 as [-> H3]; rewrite logged_logged; cbn [app uploads logged] in *.
    2:{ intros [= <- <-]. eexists. split; [done|]. by eapply second_pass_fault. }
    unfold bind at 1.
    destruct ((if negb (py_in g supported_languages)
               then get_language_name w g else ret g) _) as [[d|e] s4] eqn:H4;
      apply fallback_inv in H4 as (evs & -> & Hfb); rewrite logged_logged;
      intros [= <- <-]; eexists; (split; [done|]).
    + by apply (second_pass w _ _ _ t1 g code t2 evs (Return d)).
    + by apply (second_pass w _ _ _ t1 g code t2 evs (Raise e)).
  - cbn [ret]. unfold bind at 1.
    assert (Hno : declared_source data <> None \/ supported_languages_tesseract !! g = None).
    { apply andb_false_iff in Hretry as [H%bool_decide_eq_false|H%bool_decide_eq_false];
        [by left|right]. by apply eq_None_not_Some. }
    destruct ((if negb (py_in g supported_languages)
               then get_language_name w g else ret g) _) as [[d|e] s4] eqn:H4;
      apply fallback_inv in H4 as (evs & -> & Hfb); rewrite logged_logged;
      intros [= <- <-]; eexists; (split; [done|]).
    + by apply (single_pass w _ _ _ t1 g evs (Return d)).
    + by apply (single_pass w _ _ _ t1 g evs (Raise e)).
Qed.

Lemma store_eq w path content s :
  store w path content s =
  (match disk w path content with
   | None => Return tt
   | Some _ => Raise (python_error "IOError")
   end,
   {| uploads := after_store w path content (uploads s); trace := trace s |}).
Proof.
  unfold store, after_store. destruct (disk w path content) as [[]|]; [|done..].
  by destruct s.
Qed.

Lemma handle_image_rejects w data src s e :
  checked_upload data = Raise e ->
  handle_image w data src s = (Raise e, s).
Proof. intros H. unfold handle_image, bind, lift. by rewrite H. Qed.

Lemma handle_image_inv w data s r s' content ft :
  checked_upload data = Return (content, ft) ->
  handle_image w data (declared_source data) s = (r, s') ->
  let p := upload_path w ft in
  exists evs r1,
    two_pass w (after_store w p content (uploads s)) p (declared_source data) evs r1 /\
    s' = {| uploads := after_store w p content (uploads s);
            trace := trace s ++ image_saved p :: evs |} /\
    r = match disk w p content with
        | None => r1
        | Some _ => pending r1
        end.
Proof.
  intros Hup Hrun p. revert Hrun.
  unfold handle_image, bind, lift. rewrite Hup. cbn [fst snd].
  unfold try_finally, try_except, raise. rewrite store_eq. fold (upload_path w ft). fold p.
  set (s1 := {| uploads := _; trace := trace s |}).
  destruct (disk w p content) as [fault|] eqn:Hd.
  - destruct (read_image _ _ _ _ s1) as [r1 s2] eqn:Hr.
    apply read_image_inv in Hr as (evs & -> & Htp). fold (upload_path w ft) in Htp.
    intros Heq. exists evs, r1. split; [done|]. split.
    + by destruct r1; injection Heq as <- <-.
    + by destruct r1; injection Heq as <- <-.
  - intros Hr. apply read_image_inv in Hr as (evs & -> & Htp).
    by exists evs, r.
Qed.

Lemma POST_image w data s :
  data_text data = None ->
  POST w data s =
  (let* td := handle_image w data (declared_source data) in
   translate_and_answer w data (image_locals data td)) (s +> [POST_called]).
Proof.
  intros Ht. unfold POST, extract_and_detect, image_in_data, bind. rewrite Ht.
  cbn [LOGGER ret fst snd negb andb].
  by destruct (handle_image _ _ _ _) as [[td|e] s1].
Qed.

Lemma POST_corrected w data s t c :
  data_text data = Some t ->
  b64decode w t = returns c ->
  POST w data s =
  (let* g := get_language w (Some c) in
   let* d := (if negb (py_in g supported_languages)
              then get_language_name w g else ret g) in
   translate_and_answer w data (corrected_locals data c d)) (s +> [POST_called]).
Proof.
  intros Ht Hc. unfold POST, extract_and_detect, image_in_data, bind. rewrite Ht, Hc.
  cbn [LOGGER ret invoke fst snd negb andb].
  destruct (get_language _ _ _) as [[g|e] s1]; [|done].
  by destruct ((if negb (py_in g supported_languages)
                  then get_language_name w g else ret g) s1) as [[d|e] s2].
Qed.

Lemma POST_undecodable w data s t :
  data_text data = Some t ->
  b64decode w t = raises ->
  POST w data s = (Raise (python_error "TypeError"), s +> [POST_called]).
Proof.
  intros Ht Hc. unfold POST, extract_and_detect, bind. by rewrite Ht, Hc.
Qed.

(** ** The runs of [POST] *)

Lemma POST_image_inv w dir data res s' :
  data_text data = None ->
  run (POST w data) dir = (res, s') ->
  match checked_upload data with
  | Raise e => res = Raise e /\ s' = {| uploads := dir; trace := [POST_called] |}
  | Return (content, ft) =>
      let p := upload_path w ft in
      exists evs r1 evs2,
        two_pass w (after_store w p content dir) p (declared_source data) evs r1 /\
        s' = {| uploads := after_store w p content dir;
                trace := POST_called :: image_saved p :: evs ++ evs2 |} /\
        match disk w p content with
        | Some _ => res = pending r1 /\ evs2 = []
        | None =>
            match r1 with
            | Return td => answers w data (image_locals data td) evs2 res
            | Raise e => res = Raise e /\ evs2 = []
            end
        end
  end.
Proof.
  intros Ht. unfold run. rewrite POST_image by done. unfold bind.
  destruct (checked_upload data) as [[content ft]|e] eqn:Hup.
  - destruct (handle_image _ _ _ _) as [r s1] eqn:Hh.
    eapply handle_image_inv in Hh as (evs & r1 & Htp & -> & ->); [|done].
    cbn [uploads trace logged app] in *.
    destruct (disk w _ content) as [fault|] eqn:Hd; intros Hrun.
    + assert (res = pending r1 /\
              s' = {| uploads := after_store w (upload_path w ft) content dir;
                      trace := POST_called :: image_saved (upload_path w ft) :: evs |})
        as [-> ->] by (revert Hrun; destruct r1; cbn [pending]; by intros [= <- <-]).
      exists evs, r1, []. rewrite app_nil_r. by split_and!.
    + destruct r1 as [td|e].
      * apply translate_and_answer_inv in Hrun as (evs2 & -> & Hans).
        exists evs, (Return td), evs2. split; [done|]. split; [|done].
        done.
      * injection Hrun as <- <-. exists evs, (Raise e), []. rewrite app_nil_r.
        by split_and!.
  - rewrite (handle_image_rejects _ _ _ _ e) by done. by intros [= <- <-].
Qed.

Lemma POST_corrected_inv w dir data t c res s' :
  data_text data = Some t ->
  b64decode w t = returns c ->
  run (POST w data) dir = (res, s') ->
  uploads s' = dir /\
  ((exists e, res = Raise e /\ status e = 500 /\
              trace s' = [POST_called; get_language_called (Some c)]) \/
   (exists g evs r1 evs2,
      c <> "" /\ guesses w c g /\ fallback w g evs r1 /\
      trace s' = POST_called :: get_language_called (Some c) :: language_detected g
                   :: evs ++ evs2 /\
      match r1 with
      | Return d => answers w data (corrected_locals data c d) evs2 res
      | Raise e => res = Raise e /\ evs2 = []
      end)).
Proof.
  intros Ht Hc. unfold run. rewrite (POST_corrected _ _ _ t c) by done. unfold bind.
  destruct (get_language _ _ _) as [[g|e] s1] eqn:Hg; apply get_language_inv in Hg.
  2:{ destruct Hg as [-> He]. intros [= <- <-]. split; [done|]. left. by exists e. }
  destruct Hg as (-> & Hne & Hg). rewrite logged_logged. cbn [app].
  destruct ((if negb (py_in g supported_languages)
             then get_language_name w g else ret g) _) as [[d|e] s2] eqn:Hf;
    apply fallback_inv in Hf as (evs & -> & Hfb); rewrite logged_logged; cbn [app].
  - intros (evs2 & -> & Hans)%translate_and_answer_inv. split; [done|]. right.
    exists g, evs, (Return d), evs2. split_and!; [done..| |done].
    unfold logged; cbn [uploads trace app]. done.
  - intros [= <- <-]. split; [done|]. right.
    exists g, evs, (Raise e), []. rewrite app_nil_r. by split_and!.
Qed.

(** ** Facts about traces *)

Lemma ocr_capable g :
  is_Some (supported_languages_tesseract !! g) <-> g ∈ ocr_codes.
Proof.
  rewrite <- elem_of_dom. unfold supported_languages_tesseract, ocr_codes.
  rewrite dom_list_to_map_L. set_solver.
Qed.

Lemma fallback_silent w g evs r :
  fallback w g evs r ->
  omap pass_of evs = [] /\ omap text_of evs = [] /\ omap guess_of evs = [] /\
  omap detection_of evs = [] /\ omap translation_of evs = [] /\
  Forall (fun e => extraction_event e = false) evs.
Proof. destruct 1; split_and!; by repeat constructor. Qed.

Lemma answers_silent w data l evs res :
  answers w data l evs res ->
  omap pass_of evs = [] /\ omap text_of evs = [] /\ omap guess_of evs = [] /\
  omap detection_of evs = [] /\
  Forall (fun e => extraction_event e = false) evs.
Proof.
  intros [H _]. induction H as [|e evs He _ (IH1 & IH2 & IH3 & IH4 & IH5)];
    [by split_and!|].
  destruct e; try discriminate; csimpl; split_and!; try done; by constructor.
Qed.

Lemma elem_of_passes p h (tr : list event) :
  get_text_called p h ∈ tr <-> (p, h) ∈ omap pass_of tr.
Proof.
  rewrite list_elem_of_omap. split.
  - intros H. by exists (get_text_called p h).
  - intros (e & He & Hp). destruct e; try discriminate. by injection Hp as -> ->.
Qed.

Lemma elem_of_guessed g (tr : list event) : language_detected g ∈ tr <-> g ∈ guessed tr.
Proof.
  unfold guessed. rewrite list_elem_of_omap. split.
  - intros H. by exists (language_detected g).
  - intros (e & He & Hp). destruct e; try discriminate. by injection Hp as ->.
Qed.

Lemma elem_of_translations x y z (tr : list event) :
  get_translation_called x y z ∈ tr <-> (x, y, z) ∈ translations tr.
Proof.
  unfold translations. rewrite list_elem_of_omap. split.
  - intros H. by exists (get_translation_called x y z).
  - intros (e & He & Hp). destruct e; try discriminate. by injection Hp as -> -> ->.
Qed.

(** The passes of the [finally] block. *)
Lemma two_pass_passes w dir p src evs r1 :
  two_pass w dir p src evs r1 ->
  omap translation_of evs = [] /\
  List.length (omap pass_of evs) <= 2 /\
  (List.length (omap pass_of evs) = 2 <->
     src = None /\ exists g, g ∈ omap guess_of evs /\ g ∈ ocr_codes) /\
  (List.length (omap pass_of evs) = 2 ->
     forall td, r1 = Return td ->
       exists t1 t2, omap text_of evs = [t1; t2] /\ fst td = Some t2).
Proof.
  destruct 1 as [e He|t1 e Ht1 He|t1 g evs r Ht1 Hg Hno Hfb
                |t1 g code e -> Ht1 Hg Hcode He|t1 g code t2 evs r -> Ht1 Hg Hcode Ht2 Hfb];
    try (apply fallback_silent in Hfb as (Hp & Htx & Hgs & _ & Htr & _));
    rewrite ?omap_app, ?Hp, ?Htx, ?Hgs, ?Htr; csimpl.
  - split_and!; [done|lia| |done]. split; [done|]. by intros (_ & g & ?%elem_of_nil & _).
  - split_and!; [done|lia| |done]. split; [done|]. by intros (_ & g & ?%elem_of_nil & _).
  - split_and!; [done|lia| |done]. split; [done|].
    intros (Hsrc & g' & ->%list_elem_of_singleton & Hocr%ocr_capable).
    destruct Hno as [?|Hnone]; [done|]. rewrite Hnone in Hocr. by destruct Hocr.
  - split_and!; [done|lia| |done]. split; [|done]. intros _. split; [done|].
    exists g. split; [by apply list_elem_of_singleton|]. by apply ocr_capable.
  - split_and!; [done|lia| |].
    + split; [|done]. intros _. split; [done|].
      exists g. split; [by apply list_elem_of_singleton|]. by apply ocr_capable.
    + intros _ td Htd. exists t1, t2. split; [done|].
      destruct r; [|done]. by injection Htd as <-.
Qed.

(** C2. In image mode a second extraction pass runs exactly when no
    supported source language was declared and the detector's guess on the
    first pass is one of en, de, it, fr, es, sv; there is never a third pass;
    and when the second pass ran, the answer and the translator's call carry
    its text, not the first pass's. *)
Theorem second_pass_iff w dir data :
  data_text data = None ->
  let r := run (POST w data) dir in
  let tr := trace (final r) in
  passes tr <= 2 /\
  (passes tr = 2 <->
     declared_source data = None /\
     exists g, language_detected g ∈ tr /\ g ∈ ocr_codes) /\
  (passes tr = 2 ->
     (forall x y z, get_translation_called x y z ∈ tr ->
        exists t1 t2, extracted tr = [t1; t2] /\ x = Some t2 /\ z = None) /\
     (forall resp, outcome r = Return resp ->
        exists t1 t2 target,
          extracted tr = [t1; t2] /\ text resp = t2 /\
          translations tr = [(Some t2, target, None)])).
Proof.
  intros Ht r tr. subst r tr.
  destruct (run (POST w data) dir) as [res s'] eqn:Hrun. cbn [final outcome fst snd].
  apply POST_image_inv in Hrun; [|done].
  destruct (checked_upload data) as [[content ft]|e].
  2:{ destruct Hrun as [-> ->]. cbn. split_and!; [lia| |done].
      split; [done|]. intros (_ & g & Hg & _). absent. }
  destruct Hrun as (evs & r1 & evs2 & Htp & -> & Hres). cbn [trace].
  apply two_pass_passes in Htp as (Htr & Hle & Hiff & Htext).
  assert (Hquiet : omap pass_of evs2 = [] /\ omap text_of evs2 = [] /\
                   omap guess_of evs2 = []).
  { destruct (disk w _ content); [by destruct Hres as [_ ->]|].
    destruct r1; [|by destruct Hres as [_ ->]].
    by apply answers_silent in Hres as (? & ? & ? & _). }
  destruct Hquiet as (Hq1 & Hq2 & Hq3).
  unfold passes, extracted, translations. setoid_rewrite elem_of_guessed. unfold guessed.
  csimpl. rewrite !omap_app, Hq1, Hq2, Hq3, Htr, !app_nil_r. csimpl.
  split_and!; [done..|].
  intros H2. pose proof (proj1 Hiff H2) as [Hsrc _]. split.
  - intros x y z Hin.
    apply elem_of_cons in Hin as [?|Hin]; [done|].
    apply elem_of_cons in Hin as [?|Hin]; [done|].
    apply elem_of_app in Hin as [Hin|Hin].
    { apply elem_of_translations in Hin. unfold translations in Hin.
      rewrite Htr in Hin. by apply elem_of_nil in Hin. }
    destruct (disk w _ content);
      [destruct Hres as [_ ->]; by apply elem_of_nil in Hin|].
    destruct r1 as [td|e]; [|destruct Hres as [_ ->]; by apply elem_of_nil in Hin].
    destruct (Htext H2 td eq_refl) as (t1 & t2 & Hex & Htd).
    destruct Hres as (_ & Hcall & _). apply Hcall in Hin as (-> & -> & _).
    exists t1, t2. cbn. by rewrite Hsrc.
  - intros resp ->. destruct (disk w _ content); [by destruct r1, Hres|].
    destruct r1 as [td|e]; [|by destruct Hres].
    destruct (Htext H2 td eq_refl) as (t1 & t2 & Hex & Htd).
    destruct Hres as (_ & _ & _ & target & txt & _ & _ & Hact & _ & Htxt & _ & ->).
    cbn in Hact. rewrite Htd in Hact. injection Hact as <-.
    cbn [image_locals source_lang]. rewrite Hsrc.
    by exists t1, t2, (lower target).
Qed.

(** ** Runs that go through *)

Lemma get_text_run w p h s t :
  p <> "" ->
  extracts w (uploads s) p h t ->
  get_text w p h s = (Return t, s +> [get_text_called p h; text_extracted t]).
Proof.
  intros Hp (bytes & image & Hf & Hd & Ho & Ht).
  apply len_zero_false in Hp, Ht.
  unfold get_text, Image_open, try_except, invoke, bind, LOGGER, ret, raise.
  rewrite Hp. cbn [uploads logged]. rewrite Hf, Hd. cbn. rewrite Ho. cbn.
  rewrite len_le_zero, Ht. by rewrite logged_logged.
Qed.

Lemma get_language_run w t o s :
  t <> "" ->
  gs_detect w t = returns o ->
  get_language w (Some t) s =
  (Return (default "unk" o),
   s +> [get_language_called (Some t); language_detected (default "unk" o)]).
Proof.
  intros Ht%len_zero_false Hg.
  unfold get_language, invoke, bind, LOGGER, ret, raise. rewrite Ht, Hg. cbn.
  rewrite logged_logged. by destruct o.
Qed.

Lemma get_translation_run w t target src tr s :
  t <> "" -> target <> "" ->
  gs_translate w t target src = returns tr ->
  get_translation w (Some t) target src s =
  (Return tr, s +> [get_translation_called (Some t) target src; text_translated tr]).
Proof.
  intros Ht%len_zero_false Hl%len_zero_false Hg.
  unfold get_translation, try_except, invoke, bind, LOGGER, ret, raise.
  rewrite Ht, Hl, Hg. cbn. by rewrite logged_logged.
Qed.

Lemma get_json_run w t tr d body s :
  t <> "" -> tr <> "" -> d <> "" ->
  json_dumps w {| detected := d; text := t; translation := tr |} = returns body ->
  get_json w (Some t) tr d s =
  (Return {| detected := d; text := t; translation := tr |},
   s +> [get_json_called (Some t) tr d]).
Proof.
  intros Ht%len_zero_false Htr%len_zero_false Hd%len_zero_false Hj.
  unfold get_json, invoke, bind, LOGGER, ret, raise. by rewrite Ht, Htr, Hd, Hj.
Qed.

Lemma upload_path_not_empty w ft : upload_path w ft <> "".
Proof. apply path_not_empty. Qed.




Lemma declared_source_None data :
  declared_source data = None <->
  match data_source data with
  | Some s => lower s ∉ supported_languages
  | None => True
  end.
Proof.
  unfold declared_source. destruct (data_source data) as [s|]; [|done].
  cbn [py_in_opt]. destruct (py_in (lower s) supported_languages) eqn:Hin; cbn [negb].
  - apply py_in_true in Hin. split; [done|]. by intros [].
  - by apply py_in_false in Hin.
Qed.

(** The hints of the extraction passes: the one of the declared source
    language on the first pass, the one of the detector's guess on the
    second. *)
Lemma two_pass_hints w dir p src evs r1 :
  two_pass w dir p src evs r1 ->
  forall p' h, (p', h) ∈ omap pass_of evs ->
    h = first_hint src \/
    exists g, g ∈ omap guess_of evs /\ supported_languages_tesseract !! g = h.
Proof.
  destruct 1 as [e He|t1 e Ht1 He|t1 g evs r Ht1 Hg Hno Hfb
                |t1 g code e -> Ht1 Hg Hcode He|t1 g code t2 evs r -> Ht1 Hg Hcode Ht2 Hfb];
    try (apply fallback_silent in Hfb as (Hp & Htx & Hgs & _ & Htr & _));
    rewrite ?omap_app, ?Hp, ?Htx, ?Hgs, ?Htr; csimpl; intros p' h;
    rewrite ?elem_of_cons, elem_of_nil; intros Hin.
  - destruct Hin as [[= _ ->]|[]]. by left.
  - destruct Hin as [[= _ ->]|[]]. by left.
  - destruct Hin as [[= _ ->]|[]]. by left.
  - destruct Hin as [[= _ ->]|[[= _ ->]|[]]]; [by left|right].
    exists g. split; [by apply list_elem_of_singleton|done].
  - destruct Hin as [[= _ ->]|[[= _ ->]|[]]]; [by left|right].
    exists g. split; [by apply list_elem_of_singleton|done].
Qed.

(** The three kinds of request: corrected text that decodes, corrected text
    that does not, and no corrected text. *)
Ltac post_cases w data dir :=
  let t := fresh "t" in
  let c := fresh "c" in
  let Ht := fresh "Htext" in
  let Hc := fresh "Hdecode" in
  let Hrun := fresh "Hrun" in
  let res := fresh "res" in
  let s' := fresh "s'" in
  destruct (run (POST w data) dir) as [res s'] eqn:Hrun;
  destruct (data_text data) as [t|] eqn:Ht;
  [destruct (b64decode w t) as [c|] eqn:Hc;
   [apply (POST_corrected_inv w dir data t c) in Hrun as [Hdir Hrun]; [|done..]
   |unfold run in Hrun; rewrite (POST_undecodable w data _ t) in Hrun by done;
    injection Hrun as <- <-]
  |apply POST_image_inv in Hrun; [|done]];
  cbn [final outcome fst snd uploads trace logged app] in *.

(** Every call of the translator carries the declared source language, the
    lower-cased target and, for corrected text, the decoded text. *)
Lemma POST_translations w dir data x y z :
  get_translation_called x y z ∈ trace (final (run (POST w data) dir)) ->
  z = declared_source data /\
  (exists target, data_target data = Some target /\ y = lower target) /\
  (forall t c, data_text data = Some t -> b64decode w t = returns c -> x = Some c).
Proof.
  rewrite elem_of_translations. unfold translations. post_cases w data dir.
  - destruct Hrun as [(e & -> & _ & ->)|(g & evs & r1 & evs2 & _ & _ & Hfb & -> & Hres)];
      [by intros ?%elem_of_nil|].
    apply fallback_silent in Hfb as (_ & _ & _ & _ & Htr & _).
    csimpl. rewrite omap_app, Htr. cbn [app].
    destruct r1 as [d|e]; [|destruct Hres as [_ ->]; by intros ?%elem_of_nil].
    intros Hin. destruct Hres as (_ & Hcall & _ & _).
    apply elem_of_translations, Hcall in Hin as (Hx & Hz & Hy).
    split_and!; [done..|]. intros t' c' [= <-] Hc'. rewrite Hdecode in Hc'.
    by injection Hc' as <-.
  - by intros ?%elem_of_nil.
  - destruct (checked_upload data) as [[content ft]|e];
      [|destruct Hrun as [_ ->]; by intros ?%elem_of_nil].
    destruct Hrun as (evs & r1 & evs2 & Htp & -> & Hres). cbn [trace].
    apply two_pass_passes in Htp as (Htr & _). csimpl. rewrite omap_app, Htr. cbn [app].
    destruct (disk w _ content); [destruct Hres as [_ ->]; by intros ?%elem_of_nil|].
    destruct r1 as [td|e]; [|destruct Hres as [_ ->]; by intros ?%elem_of_nil].
    intros Hin. destruct Hres as (_ & Hcall & _ & _).
    apply elem_of_translations, Hcall in Hin as (Hx & Hz & Hy).
    by split_and!.
Qed.

(** Every extraction pass belongs to an image-mode request, and its hint is
    the one of the declared source language or the one of a guess the
    detector made. *)
Lemma POST_hints w dir data p h :
  let tr := trace (final (run (POST w data) dir)) in
  get_text_called p h ∈ tr ->
  data_text data = None /\
  (h = first_hint (declared_source data) \/
   exists g, language_detected g ∈ tr /\ supported_languages_tesseract !! g = h).
Proof.
  intros tr. subst tr. setoid_rewrite elem_of_guessed. rewrite elem_of_passes.
  unfold guessed. post_cases w data dir.
  - destruct Hrun as [(e & -> & _ & ->)|(g & evs & r1 & evs2 & _ & _ & Hfb & -> & Hres)];
      [by intros ?%elem_of_nil|].
    apply fallback_silent in Hfb as (Hp & _).
    assert (omap pass_of evs2 = []) as Hq.
    { destruct r1; [by apply answers_silent in Hres as (? & _)|by destruct Hres as [_ ->]]. }
    csimpl. rewrite omap_app, Hp, Hq. by intros ?%elem_of_nil.
  - by intros ?%elem_of_nil.
  - destruct (checked_upload data) as [[content ft]|e];
      [|destruct Hrun as [_ ->]; by intros ?%elem_of_nil].
    destruct Hrun as (evs & r1 & evs2 & Htp & -> & Hres). cbn [trace].
    assert (omap pass_of evs2 = []) as Hq.
    { destruct (disk w _ content); [by destruct Hres as [_ ->]|].
      destruct r1; [by apply answers_silent in Hres as (? & _)|by destruct Hres as [_ ->]]. }
    csimpl. rewrite !omap_app, Hq, app_nil_r. intros Hin. split; [done|].
    destruct (two_pass_hints _ _ _ _ _ _ Htp _ _ Hin) as [?|(g & Hg & Hc)]; [by left|].
    right. exists g. split; [|done]. apply elem_of_app. by left.
Qed.

(** C8. A declared source language that is not en, de or it (once
    lower-cased) counts as no declaration: the handler does exactly what it
    does on the same request without the field, so the request is not
    rejected for it; no translator call carries a source language; and every
    OCR hint is either absent or the engine identifier of a guess of the
    detector. *)
Theorem unsupported_source_is_absent w data s :
  data_source data = Some s ->
  lower s ∉ supported_languages ->
  declared_source data = None /\
  POST w data = POST w (without_source data) /\
  forall dir,
    let tr := trace (final (run (POST w data) dir)) in
    (forall x y z, get_translation_called x y z ∈ tr -> z = None) /\
    (forall p h, get_text_called p h ∈ tr ->
       h = None \/
       exists g, language_detected g ∈ tr /\ supported_languages_tesseract !! g = h).
Proof.
  intros Hs Hno.
  assert (Hsrc : declared_source data = None).
  { apply declared_source_None. by rewrite Hs. }
  split; [done|]. split.
  - unfold POST, extract_and_detect, translate_and_answer, handle_image, checked_upload.
    by rewrite Hsrc.
  - intros dir tr. subst tr. split.
    + intros x y z (Hz & _)%POST_translations. by rewrite Hz.
    + intros p h (_ & Hh)%POST_hints. by rewrite Hsrc in Hh.
Qed.

Lemma unsupported_source_is_absent_witness :
  declared_source (Demo.image_request (Some "fr") (Some "de")) = None /\
  POST Demo.french (Demo.image_request (Some "fr") (Some "de")) =
  POST Demo.french (without_source (Demo.image_request (Some "fr") (Some "de"))) /\
  forall dir,
    let tr := trace (final (run (POST Demo.french
                                   (Demo.image_request (Some "fr") (Some "de"))) dir)) in
    (forall x y z, get_translation_called x y z ∈ tr -> z = None) /\
    (forall p h, get_text_called p h ∈ tr ->
       h = None \/
       exists g, language_detected g ∈ tr /\ supported_languages_tesseract !! g = h).
Proof.
  apply (unsupported_source_is_absent Demo.french _ "fr"); [done|].
  by apply py_in_false.
Defined.

(** Each extraction pass either yields a text or is the fault the [finally]
    block ends with. *)
Lemma two_pass_pass w dir p src evs r1 :
  two_pass w dir p src evs r1 ->
  forall p' h, (p', h) ∈ omap pass_of evs ->
    p' = p /\
    ((exists t, extracts w dir p h t) \/
     (exists e, r1 = Raise e /\ extraction_fault w dir p h e)).
Proof.
  destruct 1 as [e He|t1 e Ht1 He|t1 g evs r Ht1 Hg Hno Hfb
                |t1 g code e -> Ht1 Hg Hcode He|t1 g code t2 evs r -> Ht1 Hg Hcode Ht2 Hfb];
    try (apply fallback_silent in Hfb as (Hp & _));
    rewrite ?omap_app, ?Hp; csimpl; intros p' h;
    rewrite ?elem_of_cons, elem_of_nil; intros Hin.
  - destruct Hin as [[= -> ->]|[]]. split; [done|]. right. by exists e.
  - destruct Hin as [[= -> ->]|[]]. split; [done|]. left. by exists t1.
  - destruct Hin as [[= -> ->]|[]]. split; [done|]. left. by exists t1.
  - destruct Hin as [[= -> ->]|[[= -> ->]|[]]]; (split; [done|]).
    + left. by exists t1.
    + right. by exists e.
  - destruct Hin as [[= -> ->]|[[= -> ->]|[]]]; (split; [done|]); left.
    + by exists t1.
    + by exists t2.
Qed.

(** What the extractor does is a function of what the engine does. *)
Lemma engine_decides w dir p h bytes image :
  dir !! p = Some bytes ->
  Image_decode w bytes = returns image ->
  (forall t, extracts w dir p h t -> image_to_string w image h = returns t /\ t <> "") /\
  (forall e, p <> "" -> extraction_fault w dir p h e ->
     (image_to_string w image h = returns "" /\
      e = notfound "No text detected in image.") \/
     (image_to_string w image h = raises /\
      e = internalerror "Could not extract text from image.")).
Proof.
  intros Hf Hd. split.
  - intros t (bytes' & image' & Hf' & Hd' & Ho & Ht). rewrite Hf in Hf'.
    injection Hf' as <-. rewrite Hd in Hd'. by injection Hd' as <-.
  - intros e Hp He. destruct He as [| | | bytes' image' _ Hf' Hd' Ho
                                    | bytes' image' _ Hf' Hd' Ho]; try congruence.
    + right. rewrite Hf in Hf'. injection Hf' as <-. rewrite Hd in Hd'.
      by injection Hd' as <-.
    + left. rewrite Hf in Hf'. injection Hf' as <-. rewrite Hd in Hd'.
      by injection Hd' as <-.
Qed.

(** An extraction pass of the request and what became of it. *)
Lemma POST_pass w dir data p h :
  get_text_called p h ∈ trace (final (run (POST w data) dir)) ->
  p <> "" /\
  ((exists t, extracts w (uploads (final (run (POST w data) dir))) p h t) \/
   (exists e, outcome (run (POST w data) dir) = Raise e /\
              extraction_fault w (uploads (final (run (POST w data) dir))) p h e)).
Proof.
  rewrite elem_of_passes. post_cases w data dir.
  - destruct Hrun as [(e & -> & _ & ->)|(g & evs & r1 & evs2 & _ & _ & Hfb & -> & Hres)];
      [by intros ?%elem_of_nil|].
    apply fallback_silent in Hfb as (Hp & _).
    assert (omap pass_of evs2 = []) as Hq.
    { destruct r1; [by apply answers_silent in Hres as (? & _)|by destruct Hres as [_ ->]]. }
    csimpl. rewrite omap_app, Hp, Hq. by intros ?%elem_of_nil.
  - by intros ?%elem_of_nil.
  - destruct (checked_upload data) as [[content ft]|e];
      [|destruct Hrun as [_ ->]; by intros ?%elem_of_nil].
    destruct Hrun as (evs & r1 & evs2 & Htp & -> & Hres). cbn [trace uploads].
    assert (omap pass_of evs2 = []) as Hq.
    { destruct (disk w _ content); [by destruct Hres as [_ ->]|].
      destruct r1; [by apply answers_silent in Hres as (? & _)|by destruct Hres as [_ ->]]. }
    csimpl. rewrite !omap_app, Hq, app_nil_r. intros Hin.
    destruct (two_pass_pass _ _ _ _ _ _ Htp _ _ Hin) as [-> Hpass].
    split; [apply upload_path_not_empty|].
    destruct Hpass as [?|(e & -> & He)]; [by left|right]. exists e. split; [|done].
    destruct (disk w _ content); by destruct Hres as [-> _].
Qed.

(** C6. Whenever an extraction pass of a request finds the OCR engine
    returning the empty string, the request fails with the 404 of
    ['No text detected in image.'] (neither a 400 nor a 500); when the engine
    raises instead, the request fails with a 500. *)
Theorem empty_text_is_not_found w dir data p h bytes image :
  get_text_called p h ∈ trace (final (run (POST w data) dir)) ->
  uploads (final (run (POST w data) dir)) !! p = Some bytes ->
  Image_decode w bytes = returns image ->
  (image_to_string w image h = returns "" ->
   outcome (run (POST w data) dir) = Raise (notfound "No text detected in image.")
   /\ status (notfound "No text detected in image.") = 404) /\
  (image_to_string w image h = raises ->
   outcome (run (POST w data) dir)
     = Raise (internalerror "Could not extract text from image.")
   /\ status (internalerror "Could not extract text from image.") = 500).
Proof.
  intros (Hp & Hpass)%POST_pass Hf Hd.
  destruct (engine_decides w _ p h bytes image Hf Hd) as [Hok Hfault].
  split; intros Ho; (split; [|done]).
  - destruct Hpass as [(t & Ht)|(e & -> & He)].
    + apply Hok in Ht as [Ht Hne]. rewrite Ho in Ht. by injection Ht as <-.
    + by destruct (Hfault e Hp He) as [[_ ->]|[Hr _]]; [|congruence].
  - destruct Hpass as [(t & Ht)|(e & -> & He)].
    + apply Hok in Ht as [Ht Hne]. congruence.
    + by destruct (Hfault e Hp He) as [[Hr _]|[_ ->]]; [congruence|].
Qed.

Lemma empty_text_is_not_found_witness :
  (outcome (run (POST Demo.blank (Demo.image_request None (Some "de"))) ∅)
     = Raise (notfound "No text detected in image.")
   /\ status (notfound "No text detected in image.") = 404) /\
  (outcome (run (POST Demo.broken_engine (Demo.image_request None (Some "de"))) ∅)
     = Raise (internalerror "Could not extract text from image.")
   /\ status (internalerror "Could not extract text from image.") = 500).
Proof.
  split.
  - refine (proj1 (empty_text_is_not_found Demo.blank ∅ _ Demo.path None
                     "JFIF..." "JFIF..." _ _ _) _); [|by vm_compute..].
    vm_compute. set_solver.
  - refine (proj2 (empty_text_is_not_found Demo.broken_engine ∅ _ Demo.path None
                     "JFIF..." "JFIF..." _ _ _) _); [|by vm_compute..].
    vm_compute. set_solver.
Defined.

Lemma not_extraction_event (evs : list event) e :
  Forall (fun e => extraction_event e = false) evs ->
  extraction_event e = true ->
  e ∉ evs.
Proof.
  intros Hall He Hin. rewrite Forall_forall in Hall.
  apply Hall in Hin. congruence.
Qed.

(** A [finally] block that logged ['Image is read again with tesseract.']
    and came through ran both passes and detected once, in between. *)
Lemma two_pass_read_again w dir p src evs td :
  two_pass w dir p src evs (Return td) ->
  read_again ∈ evs ->
  exists t1 g code t2 fevs d,
    src = None /\ extracts w dir p None t1 /\ guesses w t1 g /\
    supported_languages_tesseract !! g = Some code /\
    extracts w dir p (Some code) t2 /\
    fallback w g fevs (Return d) /\ td = (Some t2, d) /\
    evs = ([get_text_called p None; text_extracted t1;
            get_language_called (Some t1); language_detected g;
            read_again; get_text_called p (Some code); text_extracted t2] ++ fevs)%list.
Proof.
  intros Htp. inversion Htp as [| |t1 g fevs r Ht1 Hg Hno Hfb Hevs Hr
                                | |t1 g code t2 fevs r Hsrc Ht1 Hg Hcode Ht2 Hfb Hevs Hr];
    subst.
  - intros Hin. exfalso.
    apply fallback_silent in Hfb as (_ & _ & _ & _ & _ & Hfb).
    apply elem_of_app in Hin as [Hin|Hin]; [absent|].
    by apply (not_extraction_event fevs read_again Hfb).
  - intros _. destruct r as [d|e]; [|done]. injection Hr as <-.
    by exists t1, g, code, t2, fevs, d.
Qed.

(** C9. When the second extraction pass ran and the request succeeded, the
    detector was asked exactly once, about the first pass's text: the
    response's [detected] field is that guess (or its display name, when the
    guess is not en, de or it), while its [text] is the second pass's text
    and its [translation] the translation of that second text. *)
Theorem detection_not_rerun w dir data resp :
  data_text data = None ->
  outcome (run (POST w data) dir) = Return resp ->
  read_again ∈ trace (final (run (POST w data) dir)) ->
  exists p t1 g code t2 target,
    extracts w (uploads (final (run (POST w data) dir))) p None t1 /\
    guesses w t1 g /\
    supported_languages_tesseract !! g = Some code /\
    extracts w (uploads (final (run (POST w data) dir))) p (Some code) t2 /\
    extracted (trace (final (run (POST w data) dir))) = [t1; t2] /\
    detections (trace (final (run (POST w data) dir))) = [Some t1] /\
    guessed (trace (final (run (POST w data) dir))) = [g] /\
    ((g ∈ supported_languages /\ detected resp = g) \/
     ((g ∉ supported_languages) /\
      exists names, gs_get_languages w = returns names /\
                    detected resp = display_name names g)) /\
    text resp = t2 /\
    gs_translate w t2 target None = returns (translation resp).
Proof.
  intros Ht. destruct (run (POST w data) dir) as [res s'] eqn:Hrun.
  cbn [final outcome fst snd]. intros ->.
  apply POST_image_inv in Hrun; [|done].
  destruct (checked_upload data) as [[content ft]|e]; [|by destruct Hrun].
  destruct Hrun as (evs & r1 & evs2 & Htp & -> & Hres). cbn [trace uploads].
  destruct (disk w _ content); [by destruct r1, Hres|].
  destruct r1 as [td|e]; [|by destruct Hres].
  pose proof (answers_silent _ _ _ _ _ Hres) as (_ & Hq2 & Hq3 & Hq4 & Hq5).
  intros Hin. assert (read_again ∈ evs) as Hin'.
  { apply elem_of_cons in Hin as [?|Hin]; [done|].
    apply elem_of_cons in Hin as [?|Hin]; [done|].
    apply elem_of_app in Hin as [?|Hin]; [done|].
    by apply (not_extraction_event evs2 read_again Hq5) in Hin. }
  destruct (two_pass_read_again _ _ _ _ _ _ Htp Hin')
    as (t1 & g & code & t2 & fevs & d & Hsrc & Ht1 & Hg & Hcode & Ht2 & Hfb & -> & ->).
  destruct Hres as (_ & _ & _ & target & txt & _ & _ & Hact & Htr & Htxt & Hdet & _).
  cbn in Hact, Htr, Hdet. injection Hact as <-. rewrite Hsrc in Htr.
  exists (upload_path w ft), t1, g, code, t2, (lower target).
  pose proof (fallback_silent _ _ _ _ Hfb) as (_ & Hf2 & Hf3 & Hf4 & _).
  unfold extracted, detections, guessed. csimpl.
  rewrite !omap_app, Hq2, Hq3, Hq4, Hf2, Hf3, Hf4. csimpl.
  split_and!; [done..| |done|done].
  rewrite Hdet. inversion Hfb; subst; [by left|right]. split; [done|]. eauto.
Qed.

Lemma detection_not_rerun_witness :
  exists p t1 g code t2 target,
    extracts Demo.french
      (uploads (final (run (POST Demo.french (Demo.image_request None (Some "de"))) ∅)))
      p None t1 /\
    guesses Demo.french t1 g /\
    supported_languages_tesseract !! g = Some code /\
    extracts Demo.french
      (uploads (final (run (POST Demo.french (Demo.image_request None (Some "de"))) ∅)))
      p (Some code) t2 /\
    extracted (trace (final (run (POST Demo.french
                                    (Demo.image_request None (Some "de"))) ∅)))
      = [t1; t2] /\
    detections (trace (final (run (POST Demo.french
                                     (Demo.image_request None (Some "de"))) ∅)))
      = [Some t1] /\
    guessed (trace (final (run (POST Demo.french
                                  (Demo.image_request None (Some "de"))) ∅)))
      = [g] /\
    ((g ∈ supported_languages /\ "detected:French" = g) \/
     ((g ∉ supported_languages) /\
      exists names, gs_get_languages Demo.french = returns names /\
                    "detected:French" = display_name names g)) /\
    "Bonjour le monde" = t2 /\
    gs_translate Demo.french t2 target None = returns "de:Bonjour le monde".
Proof.
  apply (detection_not_rerun Demo.french ∅ (Demo.image_request None (Some "de"))
           {| detected := "detected:French"; text := "Bonjour le monde";
              translation := "de:Bonjour le monde" |}).
  - done.
  - by vm_compute.
  - vm_compute. set_solver.
Defined.

(** ** A storage fault and the [finally] block *)

Lemma extraction_fault_status w dir p h e :
  extraction_fault w dir p h e ->
  status e = 500 \/ e = notfound "No text detected in image.".
Proof. destruct 1; auto. Qed.

Lemma extracts_no_fault w dir p h t e :
  p <> "" -> extracts w dir p h t -> extraction_fault w dir p h e -> False.
Proof.
  intros Hp (bytes & image & Hf & Hd & Ho & Ht) He.
  destruct (engine_decides w dir p h bytes image Hf Hd) as [_ Hfault].
  destruct (Hfault e Hp He) as [[Hr _]|[Hr _]]; congruence.
Qed.

Lemma extraction_fault_functional w dir p h e e' :
  p <> "" ->
  extraction_fault w dir p h e -> extraction_fault w dir p h e' -> e = e'.
Proof. intros Hp. destruct 1; destruct 1; congruence. Qed.

Lemma two_pass_fault_status w dir p src evs e :
  two_pass w dir p src evs (Raise e) ->
  status e = 500 \/ e = notfound "No text detected in image.".
Proof.
  inversion 1 as [e' He| | t1 g fevs r Ht1 Hg Hno Hfb Hevs Hr
                  |t1 g code e' Hsrc Ht1 Hg Hcode He
                  |t1 g code t2 fevs r Hsrc Ht1 Hg Hcode Ht2 Hfb Hevs Hr]; subst.
  - by eapply extraction_fault_status.
  - by left.
  - destruct r; [done|]. injection Hr as ->. inversion Hfb; by left.
  - by eapply extraction_fault_status.
  - destruct r; [done|]. injection Hr as ->. inversion Hfb; by left.
Qed.

Lemma two_pass_first_fault w dir p src evs r1 e :
  p <> "" ->
  two_pass w dir p src evs r1 ->
  extraction_fault w dir p (first_hint src) e ->
  r1 = Raise e /\ evs = [get_text_called p (first_hint src)].
Proof.
  intros Hp Htp He. destruct Htp as [e' He'|t1 ? Ht1|t1 ??? Ht1|t1 ???? Ht1|t1 ?????? Ht1];
    subst; try by (exfalso; exact (extracts_no_fault w dir p _ t1 e Hp Ht1 He)).
  by rewrite (extraction_fault_functional _ _ _ _ _ _ Hp He He').
Qed.

Lemma two_pass_first_call w dir p src evs r1 :
  two_pass w dir p src evs r1 ->
  exists evs', evs = get_text_called p (first_hint src) :: evs'.
Proof. destruct 1; subst; cbn [first_hint app]; eauto. Qed.

(** The run of an image-mode request whose upload could not be stored. *)
Lemma POST_storage_fault w dir data content ft fault :
  data_text data = None ->
  checked_upload data = Return (content, ft) ->
  disk w (upload_path w ft) content = Some fault ->
  exists evs r1,
    two_pass w (after_store w (upload_path w ft) content dir) (upload_path w ft)
             (declared_source data) evs r1 /\
    run (POST w data) dir =
      (pending r1,
       {| uploads := after_store w (upload_path w ft) content dir;
          trace := POST_called :: image_saved (upload_path w ft) :: evs |}).
Proof.
  intros Ht Hup Hd. destruct (run (POST w data) dir) as [res s'] eqn:Hrun.
  apply POST_image_inv in Hrun; [|done]. rewrite Hup in Hrun.
  destruct Hrun as (evs & r1 & evs2 & Htp & -> & Hres). rewrite Hd in Hres.
  destruct Hres as [-> ->]. rewrite app_nil_r. by exists evs, r1.
Qed.

(** C10, as the code has it. When storing the upload raises, the [finally]
    block still runs on the composed path: the first extraction pass is
    always attempted, and detection and the second pass follow as usual. The
    request cannot succeed and never reaches the translator. What the caller
    gets is the fault of the [finally] block when it has one (for instance
    the 404 of an image without text, or the 500 of a file that cannot be
    opened), and the 500 of ['Server: Could not store image.'] when the block
    comes through. *)
Theorem storage_fault_surfaces w dir data content ft fault :
  data_text data = None ->
  checked_upload data = Return (content, ft) ->
  disk w (upload_path w ft) content = Some fault ->
  (exists evs r1,
     two_pass w (uploads (final (run (POST w data) dir))) (upload_path w ft)
              (declared_source data) evs r1 /\
     trace (final (run (POST w data) dir))
       = POST_called :: image_saved (upload_path w ft) :: evs /\
     outcome (run (POST w data) dir) = pending r1) /\
  get_text_called (upload_path w ft) (first_hint (declared_source data))
    ∈ trace (final (run (POST w data) dir)) /\
  translations (trace (final (run (POST w data) dir))) = [] /\
  (exists e, outcome (run (POST w data) dir) = Raise e /\
             (status e = 500 \/ e = notfound "No text detected in image.")) /\
  (forall e,
     extraction_fault w (uploads (final (run (POST w data) dir))) (upload_path w ft)
                      (first_hint (declared_source data)) e ->
     outcome (run (POST w data) dir) = Raise e).
Proof.
  intros Ht Hup Hd.
  destruct (POST_storage_fault _ dir _ _ _ _ Ht Hup Hd) as (evs & r1 & Htp & ->).
  cbn [final outcome fst snd uploads trace]. split_and!.
  - by exists evs, r1.
  - destruct (two_pass_first_call _ _ _ _ _ _ Htp) as (evs' & ->). set_solver.
  - apply two_pass_passes in Htp as (Htr & _). unfold translations. by csimpl.
  - destruct r1 as [td|e]; cbn [pending]; [eexists; split; [done|by left]|].
    exists e. split; [done|]. by eapply two_pass_fault_status.
  - intros e He.
    by destruct (two_pass_first_fault _ _ _ _ _ _ _ (upload_path_not_empty w ft) Htp He)
      as [-> _].
Qed.

Lemma storage_fault_surfaces_witness :
  outcome (run (POST Demo.full_disk (Demo.image_request None (Some "de"))) ∅)
  = Raise (notfound "No text detected in image.").
Proof.
  refine (proj2 (proj2 (proj2 (proj2
    (storage_fault_surfaces Demo.full_disk ∅ (Demo.image_request None (Some "de"))
       "JFIF..." "jpg" (write_fails "") _ _ _)))) _ _); [done..|].
  apply (no_text_detected _ _ _ _ "" ""); by vm_compute.
Defined.

(** A request whose upload could not be stored never succeeds, however well
    the [finally] block goes. *)
Lemma storage_fault_never_succeeds :
  ~ exists w dir data content ft fault resp,
      data_text data = None /\
      checked_upload data = Return (content, ft) /\
      disk w (upload_path w ft) content = Some fault /\
      outcome (run (POST w data) dir) = Return resp.
Proof.
  intros (w & dir & data & content & ft & fault & resp & Ht & Hup & Hd & Hres).
  destruct (POST_storage_fault _ dir _ _ _ _ Ht Hup Hd) as (evs & r1 & _ & Hrun).
  rewrite Hrun in Hres. by destruct r1.
Qed.

(** ** The scenario of an English sign *)

Lemma checked_upload_accepts data image name ft :
  data_image data = Some image -> value image <> "" ->
  filename image = Some name -> name <> "" ->
  data_filetype data = Some ft -> lower ft ∈ supported_filetypes ->
  checked_upload data = Return (value image, lower ft).
Proof.
  intros Hi Hv%len_zero_false Hf Hn%len_zero_false Hft Hin%py_in_true.
  unfold checked_upload. by rewrite Hi, Hv, Hf, Hn, Hft, Hin.
Qed.

(** The scenario, run up to the second call of the extractor: the upload
    is stored, the first pass yields [t1], the detector takes it for English
    and the handler reads the image again with [eng]. What follows depends
    on that second pass alone. *)
Lemma english_guess_run w dir data image name img t1 :
  data_text data = None ->
  data_source data = None ->
  data_filetype data = Some "jpg" ->
  data_image data = Some image ->
  value image <> "" ->
  filename image = Some name ->
  name <> "" ->
  disk w (upload_path w "jpg") (value image) = None ->
  Image_decode w (value image) = returns img ->
  image_to_string w img None = returns t1 ->
  t1 <> "" ->
  gs_detect w t1 = returns (Some "en") ->
  run (POST w data) dir =
    match get_text w (upload_path w "jpg") (Some "eng")
            {| uploads := <[upload_path w "jpg" := value image]> dir;
               trace := [POST_called;
                         image_saved (upload_path w "jpg");
                         get_text_called (upload_path w "jpg") None;
                         text_extracted t1;
                         get_language_called (Some t1);
                         language_detected "en";
                         read_again] |} with
    | (Return t2, s) =>
        translate_and_answer w data (image_locals data (Some t2, "en")) s
    | (Raise e, s) => (Raise e, s)
    end.
Proof.
  intros Ht Hs Hft Hi Hv Hf Hn Hd Hdec Ho1 Ht1 Hg.
  assert (Hup : checked_upload data = Return (value image, "jpg")).
  { apply (checked_upload_accepts data image name "jpg"); try done.
    by apply py_in_true. }
  assert (Hsrc : declared_source data = None).
  { unfold declared_source. by rewrite Hs. }
  set (p := upload_path w "jpg") in *.
  set (dir' := <[p := value image]> dir).
  assert (He1 : extracts w dir' p None t1).
  { exists (value image), img. unfold dir'. by rewrite lookup_insert_eq. }
  unfold run. rewrite POST_image by done. rewrite Hsrc.
  unfold bind at 1. unfold handle_image, bind at 1, lift. rewrite Hup. cbn [fst snd].
  unfold try_finally, try_except. rewrite store_eq. fold (upload_path w "jpg"). fold p.
  rewrite Hd. unfold after_store. rewrite Hd. fold dir'.
  unfold read_image. fold (upload_path w "jpg"). fold p.
  unfold bind at 1. cbn [LOGGER logged uploads trace app].
  unfold bind at 1. rewrite (get_text_run w p None _ t1); [|apply upload_path_not_empty|exact He1].
  unfold bind at 1. rewrite (get_language_run w t1 (Some "en")) by done.
  cbn [default from_option id].
  assert (Hcode : tesseract_code "en" = ret "eng") by (by vm_compute).
  assert (Hen : py_in "en" supported_languages = true) by (by vm_compute).
  unfold bind at 1.
  rewrite (bool_decide_eq_true_2 (None = None)) by done.
  rewrite (bool_decide_eq_true_2 (is_Some _)) by (by exists "eng").
  rewrite Hcode, Hen. cbn [negb andb].
  unfold bind at 1, bind at 1. cbn [LOGGER ret logged uploads trace app].
  by destruct (get_text w p (Some "eng") _) as [[t2|e] s].
Qed.

(** C3, as the code has it. A jpg upload with target de and no declared
    source, whose first pass yields text that the detector takes for
    English. The second pass does run, once, with the engine identifier
    [eng], whatever it then yields: the trace begins with the two calls of
    the extractor and has no third. When the second pass yields text, the
    translator is called once, with that text, target de and the source
    omitted. A response reports [en] and carries the second pass's text;
    and there is a response when the translation is not empty and can be
    serialised. *)
Theorem english_guess_is_read_again w dir data image name img t1 :
  data_text data = None ->
  data_source data = None ->
  data_target data = Some "de" ->
  data_filetype data = Some "jpg" ->
  data_image data = Some image ->
  value image <> "" ->
  filename image = Some name ->
  name <> "" ->
  disk w (upload_path w "jpg") (value image) = None ->
  Image_decode w (value image) = returns img ->
  image_to_string w img None = returns t1 ->
  t1 <> "" ->
  gs_detect w t1 = returns (Some "en") ->
  (exists rest,
     trace (final (run (POST w data) dir)) =
       ([POST_called;
         image_saved (upload_path w "jpg");
         get_text_called (upload_path w "jpg") None;
         text_extracted t1;
         get_language_called (Some t1);
         language_detected "en";
         read_again;
         get_text_called (upload_path w "jpg") (Some "eng")] ++ rest)%list /\
     omap pass_of rest = []) /\
  passes (trace (final (run (POST w data) dir))) = 2 /\
  uploads (final (run (POST w data) dir)) =
    <[upload_path w "jpg" := value image]> dir /\
  (forall t2,
     image_to_string w img (Some "eng") = returns t2 -> t2 <> "" ->
     translations (trace (final (run (POST w data) dir))) = [(Some t2, "de", None)]) /\
  (forall resp,
     outcome (run (POST w data) dir) = Return resp ->
     detected resp = "en" /\
     image_to_string w img (Some "eng") = returns (text resp) /\
     gs_translate w (text resp) "de" None = returns (translation resp)) /\
  (forall t2 tr body,
     image_to_string w img (Some "eng") = returns t2 -> t2 <> "" ->
     gs_translate w t2 "de" None = returns tr -> tr <> "" ->
     json_dumps w {| detected := "en"; text := t2; translation := tr |}
       = returns body ->
     run (POST w data) dir =
       (Return {| detected := "en"; text := t2; translation := tr |},
        {| uploads := <[upload_path w "jpg" := value image]> dir;
           trace := [POST_called;
                     image_saved (upload_path w "jpg");
                     get_text_called (upload_path w "jpg") None;
                     text_extracted t1;
                     get_language_called (Some t1);
                     language_detected "en";
                     read_again;
                     get_text_called (upload_path w "jpg") (Some "eng");
                     text_extracted t2;
                     get_translation_called (Some t2) "de" None;
                     text_translated tr;
                     get_json_called (Some t2) tr "en"] |})).
Proof.
  intros Ht Hs Htg Hft Hi Hv Hf Hn Hd Hdec Ho1 Ht1 Hg.
  rewrite (english_guess_run w dir data image name img t1) by done.
  assert (Hsrc : declared_source data = None).
  { unfold declared_source. by rewrite Hs. }
  assert (Hde : py_in "de" supported_languages = true) by (by vm_compute).
  set (p := upload_path w "jpg") in *.
  set (dir' := <[p := value image]> dir).
  assert (Hread : forall t2, image_to_string w img (Some "eng") = returns t2 ->
            t2 <> "" -> extracts w dir' p (Some "eng") t2).
  { intros t2 Ho2 Ht2. exists (value image), img. unfold dir'.
    by rewrite lookup_insert_eq. }
  destruct (get_text w p (Some "eng") _) as [[t2|e] s] eqn:H2.
  - pose proof (get_text_inv _ _ _ _ _ _ H2) as [-> (bytes & img' & Hb & Hdec' & Ho2 & Ht2)].
    cbn [uploads] in Hb. fold dir' in Hb. unfold dir' in Hb.
    rewrite lookup_insert_eq in Hb. injection Hb as <-.
    rewrite Hdec in Hdec'. injection Hdec' as <-.
    assert (Hsame : forall t, image_to_string w img (Some "eng") = returns t -> t = t2).
    { intros t Ho. rewrite Ho2 in Ho. by injection Ho. }
    cbn [logged uploads trace app].
    assert (Hfw : forall tr body s0,
              gs_translate w t2 "de" None = returns tr -> tr <> "" ->
              json_dumps w {| detected := "en"; text := t2; translation := tr |}
                = returns body ->
              translate_and_answer w data (image_locals data (Some t2, "en")) s0 =
                (Return {| detected := "en"; text := t2; translation := tr |},
                 s0 +> [get_translation_called (Some t2) "de" None;
                        text_translated tr;
                        get_json_called (Some t2) tr "en"])).
    { intros tr body s0 Htr Htr' Hj.
      rewrite translate_and_answer_eq, Htg.
      cbn [negb image_locals active_text corrected text_from_image fst snd
           source_lang detected_lang].
      rewrite Hsrc. change (lower "de") with "de". rewrite Hde. cbn [negb].
      unfold bind. rewrite (get_translation_run w t2 "de" None tr) by done.
      by rewrite (get_json_run w t2 tr "en" body), logged_logged. }
    destruct (translate_and_answer _ _ _ _) as [r s'] eqn:Ha.
    pose proof (translate_and_answer_inv _ _ _ _ _ _ Ha) as (evs & -> & Hans).
    pose proof (answers_silent _ _ _ _ _ Hans) as (Hp & _).
    destruct Hans as (_ & _ & Hcall & Hres).
    specialize (Hcall "de" Htg). change (lower "de") with "de" in Hcall.
    apply py_in_true in Hde. specialize (Hcall Hde).
    cbn [image_locals active_text corrected text_from_image fst snd source_lang]
      in Hcall.
    rewrite Hsrc in Hcall.
    cbn [final outcome fst snd logged uploads trace app].
    split_and!.
    + by exists (text_extracted t2 :: evs).
    + unfold passes. cbn [omap pass_of]. csimpl. by rewrite Hp.
    + done.
    + intros t Ho _. apply Hsame in Ho as ->. unfold translations. by csimpl.
    + intros resp ->.
      destruct Hres as (target & txt & Htg' & _ & Htxt & Htr & Htext & -> & _).
      rewrite Htg in Htg'. injection Htg' as <-.
      cbn [image_locals active_text corrected text_from_image fst snd
           source_lang detected_lang] in Htxt, Htr |- *.
      injection Htxt as <-. rewrite Hsrc in Htr. rewrite Htext.
      by split_and!.
    + intros t tr body Ho _ Htr Htr' Hj. apply Hsame in Ho as ->.
      rewrite (Hfw tr body) in Ha by done. by injection Ha as <- <-.
  - pose proof (get_text_inv _ _ _ _ _ _ H2) as [-> _].
    assert (Hno : forall t, image_to_string w img (Some "eng") = returns t ->
              t <> "" -> False).
    { intros t Ho Ht'. rewrite (get_text_run w p (Some "eng") _ t) in H2;
        [done|apply upload_path_not_empty|by apply Hread]. }
    cbn [final outcome fst snd logged uploads trace app].
    split_and!.
    + by exists [].
    + done.
    + done.
    + intros t Ho Ht'. by destruct (Hno t).
    + done.
    + intros t tr body Ho Ht' _ _ _. by destruct (Hno t).
Qed.

Lemma english_guess_is_read_again_witness :
  passes (trace (final (run (POST Demo.english
                               (Demo.image_request None (Some "de"))) ∅))) = 2 /\
  translations (trace (final (run (POST Demo.english
                                     (Demo.image_request None (Some "de"))) ∅))) =
    [(Some "Hello world", "de", None)] /\
  run (POST Demo.english (Demo.image_request None (Some "de"))) ∅ =
    (Return {| detected := "en"; text := "Hello world"; translation := "de:Hello world" |},
     {| uploads := <[upload_path Demo.english "jpg" := "JFIF..."]> ∅;
        trace := [POST_called;
                  image_saved (upload_path Demo.english "jpg");
                  get_text_called (upload_path Demo.english "jpg") None;
                  text_extracted "Hello wor1d";
                  get_language_called (Some "Hello wor1d");
                  language_detected "en";
                  read_again;
                  get_text_called (upload_path Demo.english "jpg") (Some "eng");
                  text_extracted "Hello world";
                  get_translation_called (Some "Hello world") "de" None;
                  text_translated "de:Hello world";
                  get_json_called (Some "Hello world") "de:Hello world" "en"] |}).
Proof.
  destruct (english_guess_is_read_again Demo.english ∅
              (Demo.image_request None (Some "de")) Demo.photo "sign.jpg"
              "JFIF..." "Hello wor1d")
    as (_ & Hpasses & _ & Hcall & _ & Hrun); [done..|].
  split_and!; [exact Hpasses|by apply Hcall|].
  by apply (Hrun "Hello world" "de:Hello world"
              (Demo.dumps {| detected := "en"; text := "Hello world";
                             translation := "de:Hello world" |})).
Defined.

(** The specification's scenario of an English sign, for which it expects
    no second pass: the handler logs ['Image is read again with tesseract.']
    and calls the extractor a second time, with [eng]. *)
Lemma english_guess_second_pass :
  trace (final (run (POST Demo.english (Demo.image_request None (Some "de"))) ∅)) =
    [POST_called;
     image_saved Demo.path;
     get_text_called Demo.path None;
     text_extracted "Hello wor1d";
     get_language_called (Some "Hello wor1d");
     language_detected "en";
     read_again;
     get_text_called Demo.path (Some "eng");
     text_extracted "Hello world";
     get_translation_called (Some "Hello world") "de" None;
     text_translated "de:Hello world";
     get_json_called (Some "Hello world") "de:Hello world" "en"]
  /\ passes (trace (final (run (POST Demo.english
                                  (Demo.image_request None (Some "de"))) ∅))) = 2.
Proof. by vm_compute. Qed.

Lemma second_pass_iff_witness :
  passes (trace (final (run (POST Demo.french
                               (Demo.image_request None (Some "de"))) ∅))) <= 2 /\
  (passes (trace (final (run (POST Demo.french
                                (Demo.image_request None (Some "de"))) ∅))) = 2 <->
     declared_source (Demo.image_request None (Some "de")) = None /\
     exists g,
       language_detected g
         ∈ trace (final (run (POST Demo.french
                                (Demo.image_request None (Some "de"))) ∅)) /\
       g ∈ ocr_codes) /\
  (passes (trace (final (run (POST Demo.french
                                (Demo.image_request None (Some "de"))) ∅))) = 2 ->
     (forall x y z,
        get_translation_called x y z
          ∈ trace (final (run (POST Demo.french
                                 (Demo.image_request None (Some "de"))) ∅)) ->
        exists t1 t2,
          extracted (trace (final (run (POST Demo.french
                                          (Demo.image_request None (Some "de"))) ∅)))
            = [t1; t2] /\ x = Some t2 /\ z = None) /\
     forall resp,
       outcome (run (POST Demo.french (Demo.image_request None (Some "de"))) ∅)
         = Return resp ->
       exists t1 t2 target,
         extracted (trace (final (run (POST Demo.french
                                         (Demo.image_request None (Some "de"))) ∅)))
           = [t1; t2] /\
         text resp = t2 /\
         translations (trace (final (run (POST Demo.french
                                            (Demo.image_request None (Some "de"))) ∅)))
           = [(Some t2, target, None)]).
Proof. by apply (second_pass_iff Demo.french ∅ (Demo.image_request None (Some "de"))). Defined.

(** ** The target language *)

Lemma target_fault_cases data :
  data_target data = None \/
  (exists target, data_target data = Some target /\ lower target ∉ supported_languages) ->
  exists message, target_fault data = Some (badrequest message).
Proof.
  unfold target_fault. intros [->|(target & -> & Hin%py_in_false)]; [by eexists|].
  rewrite Hin. by eexists.
Qed.

(** A request without a usable target language stops at the target check,
    if it gets there. *)
Lemma POST_target_fault w data e s :
  target_fault data = Some e ->
  POST w data s =
    match extract_and_detect w data s with
    | (Return _, s') => (Raise e, s')
    | (Raise e', s') => (Raise e', s')
    end.
Proof.
  intros Hf. unfold POST, bind.
  destruct (extract_and_detect w data s) as [[l|e'] s']; [|done].
  by apply translate_and_answer_fault.
Qed.

Lemma POST_target_fault_silent w dir data e :
  target_fault data = Some e ->
  translations (trace (final (run (POST w data) dir))) = [].
Proof.
  intros Hf. unfold translations. post_cases w data dir.
  - destruct Hrun as [(e' & -> & _ & ->)|(g & evs & r1 & evs2 & _ & _ & Hfb & -> & Hres)];
      [done|].
    apply fallback_silent in Hfb as (_ & _ & _ & _ & Htr & _).
    assert (evs2 = []) as ->.
    { destruct r1; [by eapply answers_fault in Hres as [_ ->]|by destruct Hres]. }
    csimpl. by rewrite omap_app, Htr.
  - done.
  - destruct (checked_upload data) as [[content ft]|e']; [|by destruct Hrun as [_ ->]].
    destruct Hrun as (evs & r1 & evs2 & Htp & -> & Hres). cbn [trace].
    apply two_pass_passes in Htp as (Htr & _).
    assert (evs2 = []) as ->.
    { destruct (disk w _ content); [by destruct Hres|].
      destruct r1; [by eapply answers_fault in Hres as [_ ->]|by destruct Hres]. }
    csimpl. by rewrite omap_app, Htr.
Qed.

(** C4, as the code has it. A request whose target language is missing or,
    lower-cased, not en, de or it never reaches the translator and never
    succeeds. The target is looked at only after storage, extraction and
    detection have been carried out: when that work raises, its fault is the
    answer; when it comes through, the answer is the 400. *)
Theorem bad_target_rejected w data :
  data_target data = None \/
  (exists target, data_target data = Some target /\ lower target ∉ supported_languages) ->
  exists message,
    status (badrequest message) = 400 /\
    (forall s,
       POST w data s =
         match extract_and_detect w data s with
         | (Return _, s') => (Raise (badrequest message), s')
         | (Raise e, s') => (Raise e, s')
         end) /\
    (forall dir,
       translations (trace (final (run (POST w data) dir))) = [] /\
       exists e, outcome (run (POST w data) dir) = Raise e).
Proof.
  intros (message & Hf)%target_fault_cases. exists message.
  split; [done|]. split.
  - intros s. by apply POST_target_fault.
  - intros dir. split; [by eapply POST_target_fault_silent|].
    unfold run. rewrite (POST_target_fault _ _ _ _ Hf).
    destruct (extract_and_detect _ _ _) as [[l|e] s']; by eexists.
Qed.

Lemma bad_target_rejected_witness :
  exists message,
    status (badrequest message) = 400 /\
    (forall s,
       POST Demo.english (Demo.image_request None (Some "fr")) s =
         match extract_and_detect Demo.english (Demo.image_request None (Some "fr")) s with
         | (Return _, s') => (Raise (badrequest message), s')
         | (Raise e, s') => (Raise e, s')
         end) /\
    (forall dir,
       translations (trace (final (run (POST Demo.english
                                          (Demo.image_request None (Some "fr"))) dir)))
         = [] /\
       exists e, outcome (run (POST Demo.english
                                 (Demo.image_request None (Some "fr"))) dir) = Raise e).
Proof.
  apply (bad_target_rejected Demo.english (Demo.image_request None (Some "fr"))).
  right. exists "fr". split; [done|]. by apply py_in_false.
Defined.

(** A request whose target language is not supported and whose answer is a
    500, not a 400: the OCR engine raised before the target was looked at. *)
Lemma bad_target_server_fault :
  data_target (Demo.image_request None (Some "fr")) = Some "fr" /\
  py_in (lower "fr") supported_languages = false /\
  outcome (run (POST Demo.broken_engine (Demo.image_request None (Some "fr"))) ∅)
    = Raise (internalerror "Could not extract text from image.") /\
  status (internalerror "Could not extract text from image.") = 500.
Proof. by vm_compute. Qed.

(** ** Corrected text *)

Lemma fallback_run w g evs d s :
  fallback w g evs (Return d) ->
  (if negb (py_in g supported_languages) then get_language_name w g else ret g) s
    = (Return d, s +> evs).
Proof.
  inversion 1 as [Hin| names Hin Hg Hn|]; subst.
  - apply py_in_true in Hin. rewrite Hin. cbn [negb ret]. by rewrite logged_nil.
  - apply py_in_false in Hin. apply len_zero_false in Hg. rewrite Hin. cbn [negb].
    unfold get_language_name, invoke, bind, LOGGER, ret. rewrite Hg, Hn.
    by rewrite logged_logged.
Qed.

Lemma declared_source_Some data s :
  data_source data = Some s ->
  lower s ∈ supported_languages ->
  declared_source data = Some (lower s).
Proof.
  intros Hs Hin%py_in_true. unfold declared_source. rewrite Hs. cbn [py_in_opt].
  by rewrite Hin.
Qed.

(** The image part and the file type do not matter to a request with
    corrected text. *)
Lemma POST_with_image w data t image filetype :
  data_text data = Some t ->
  POST w (with_image data image filetype) = POST w data.
Proof.
  intros Ht. unfold POST, extract_and_detect, translate_and_answer, declared_source.
  cbn [with_image data_text data_source data_target]. rewrite Ht.
  unfold bind, invoke, image_in_data. destruct (b64decode w t); cbn; reflexivity.
Qed.

(** C5. With corrected text in the request the image part is ignored:
    replacing or dropping it (and the file type) changes nothing in the run,
    so nothing of it is validated; nothing is written to the upload
    directory; no line of the extraction stage is logged, neither a pass nor
    a second pass; and the detector is asked once, about the decoded text,
    first thing after the handler starts. *)
Theorem corrected_text_wins w dir data t :
  data_text data = Some t ->
  (forall image filetype,
     run (POST w (with_image data image filetype)) dir = run (POST w data) dir) /\
  uploads (final (run (POST w data) dir)) = dir /\
  Forall (fun e => extraction_event e = false) (trace (final (run (POST w data) dir))) /\
  (forall c, b64decode w t = returns c ->
     detections (trace (final (run (POST w data) dir))) = [Some c] /\
     exists evs, trace (final (run (POST w data) dir))
                 = POST_called :: get_language_called (Some c) :: evs).
Proof.
  intros Ht. split.
  { intros image filetype. unfold run. by rewrite (POST_with_image _ _ t). }
  destruct (b64decode w t) as [c|] eqn:Hc;
    destruct (run (POST w data) dir) as [res s'] eqn:Hrun; cbn [final snd].
  - apply (POST_corrected_inv w dir data t c) in Hrun as [Hdir Hrun]; [|done..].
    split; [done|].
    destruct Hrun as [(e & _ & _ & ->)|(g & evs & r1 & evs2 & _ & _ & Hfb & -> & Hres)].
    { split; [by repeat constructor|]. intros c' [= <-]. split; [done|by eexists]. }
    pose proof (fallback_silent _ _ _ _ Hfb) as (_ & _ & _ & Hf4 & _ & Hf6).
    assert (omap detection_of evs2 = [] /\
            Forall (fun e => extraction_event e = false) evs2) as [Hq4 Hq5].
    { destruct r1; [by apply answers_silent in Hres as (_ & _ & _ & ? & ?)|].
      destruct Hres as [_ ->]. by split. }
    split.
    + repeat (constructor; [done|]). by apply Forall_app.
    + intros c' [= <-]. split; [|by eexists].
      unfold detections. csimpl. by rewrite omap_app, Hf4, Hq4.
  - unfold run in Hrun. rewrite (POST_undecodable w data _ t) in Hrun by done.
    injection Hrun as <- <-. split_and!; [done|by repeat constructor|done].
Qed.

Lemma corrected_text_wins_witness :
  (forall image filetype,
     run (POST Demo.german
            (with_image (Demo.text_request None (Some "en") (Some Demo.empty_photo))
                        image filetype)) ∅
     = run (POST Demo.german
              (Demo.text_request None (Some "en") (Some Demo.empty_photo))) ∅) /\
  uploads (final (run (POST Demo.german
                         (Demo.text_request None (Some "en") (Some Demo.empty_photo))) ∅))
    = ∅ /\
  Forall (fun e => extraction_event e = false)
    (trace (final (run (POST Demo.german
                          (Demo.text_request None (Some "en") (Some Demo.empty_photo))) ∅))) /\
  (forall c, b64decode Demo.german "SGFsbG8gV2VsdA==" = returns c ->
     detections
       (trace (final (run (POST Demo.german
                             (Demo.text_request None (Some "en")
                                (Some Demo.empty_photo))) ∅)))
       = [Some c] /\
     exists evs,
       trace (final (run (POST Demo.german
                            (Demo.text_request None (Some "en") (Some Demo.empty_photo))) ∅))
       = POST_called :: get_language_called (Some c) :: evs).
Proof.
  by apply (corrected_text_wins Demo.german ∅
              (Demo.text_request None (Some "en") (Some Demo.empty_photo))
              "SGFsbG8gV2VsdA==").
Defined.

(** C1, as the code has it. For corrected text with a declared source [s]
    and a target, both supported once lower-cased: the translator is never
    called with anything but the decoded text, the target and [s]; it is
    called so as soon as detection and the display-name fallback come
    through; and a response's [detected] field is the detector's guess on
    the corrected text (its display name when the guess is not en, de or
    it), whatever [s] is. *)
Theorem declared_source_reaches_translator w dir data t c s target :
  data_text data = Some t ->
  b64decode w t = returns c ->
  data_source data = Some s ->
  lower s ∈ supported_languages ->
  data_target data = Some target ->
  lower target ∈ supported_languages ->
  (forall x y z,
     get_translation_called x y z ∈ trace (final (run (POST w data) dir)) ->
     x = Some c /\ y = lower target /\ z = Some (lower s)) /\
  (forall o evs d,
     c <> "" ->
     gs_detect w c = returns o ->
     fallback w (default "unk" o) evs (Return d) ->
     translations (trace (final (run (POST w data) dir)))
       = [(Some c, lower target, Some (lower s))]) /\
  (forall resp,
     outcome (run (POST w data) dir) = Return resp ->
     translations (trace (final (run (POST w data) dir)))
       = [(Some c, lower target, Some (lower s))] /\
     exists g,
       guesses w c g /\
       ((g ∈ supported_languages /\ detected resp = g) \/
        ((g ∉ supported_languages) /\
         exists names, gs_get_languages w = returns names /\
                       detected resp = display_name names g))).
Proof.
  intros Ht Hc Hs Hsin Htg Htin.
  pose proof (declared_source_Some _ _ Hs Hsin) as Hsrc.
  split_and!.
  - intros x y z Hin. apply POST_translations in Hin as (-> & (target' & Ht' & ->) & Hx).
    rewrite Htg in Ht'. injection Ht' as <-. rewrite Hsrc. split; [|done]. by eapply Hx.
  - intros o evs d Hne Hg Hfb. unfold run.
    rewrite (POST_corrected w data _ t c) by done. unfold bind.
    rewrite (get_language_run w c o) by done.
    rewrite (fallback_run w _ evs d) by done.
    destruct (translate_and_answer _ _ _ _) as [res s'] eqn:Hrun.
    apply translate_and_answer_inv in Hrun as (evs2 & -> & _ & _ & Hcall & _).
    apply fallback_silent in Hfb as (_ & _ & _ & _ & Htr & _).
    cbn [final snd]. unfold translations. rewrite !logged_logged. cbn [logged trace app].
    csimpl. rewrite !omap_app, Htr, (Hcall target Htg Htin). cbn. by rewrite Hsrc.
  - destruct (run (POST w data) dir) as [res s'] eqn:Hrun. cbn [final outcome fst snd].
    intros resp ->.
    apply (POST_corrected_inv w dir data t c) in Hrun as [_ Hrun]; [|done..].
    destruct Hrun as [(e & ? & _)|(g & evs & r1 & evs2 & _ & Hg & Hfb & -> & Hres)];
      [done|].
    destruct r1 as [d|e]; [|by destruct Hres].
    destruct Hres as (_ & _ & Hcall & target' & txt & _ & _ & _ & _ & _ & Hdet & _).
    pose proof (fallback_silent _ _ _ _ Hfb) as (_ & _ & _ & _ & Htr & _).
    split.
    + unfold translations. csimpl. rewrite !omap_app, Htr, (Hcall target Htg Htin).
      cbn. by rewrite Hsrc.
    + exists g. split; [done|]. rewrite Hdet. cbn.
      inversion Hfb; subst; [by left|right]. split; [done|]. eauto.
Qed.

Lemma declared_source_reaches_translator_witness :
  translations
    (trace (final (run (POST Demo.german
                          (Demo.text_request (Some "en") (Some "it") None)) ∅)))
  = [(Some "Hallo Welt", "it", Some "en")].
Proof.
  refine (proj1 (proj2 (declared_source_reaches_translator Demo.german ∅
                          (Demo.text_request (Some "en") (Some "it") None)
                          "SGFsbG8gV2VsdA==" "Hallo Welt" "en" "it" _ _ _ _ _ _))
                (Some "de") [] "de" _ _ _); try done; try (by apply py_in_true).
  by constructor; apply py_in_true.
Defined.

(** Corrected text with source en declared and a detector that takes the
    text for German: the response reports [de], not the declared [en]. *)
Lemma declared_source_not_reported :
  data_source (Demo.text_request (Some "en") (Some "it") None) = Some "en" /\
  outcome (run (POST Demo.german (Demo.text_request (Some "en") (Some "it") None)) ∅)
    = Return {| detected := "de"; text := "Hallo Welt"; translation := "it:Hallo Welt" |} /\
  "de" <> "en".
Proof. by vm_compute. Qed.

(** ** Two more scenarios, run *)

(** A sign the detector takes for French: the second pass runs with [fra],
    its text is translated, and the response names the language. *)
Example french_sign :
  outcome (run (POST Demo.french (Demo.image_request None (Some "de"))) ∅)
  = Return {| detected := "detected:French"; text := "Bonjour le monde";
              translation := "de:Bonjour le monde" |}
  /\ omap pass_of (trace (final (run (POST Demo.french
                                       (Demo.image_request None (Some "de"))) ∅)))
     = [(Demo.path, None); (Demo.path, Some "fra")].
Proof. by vm_compute. Qed.

(** Corrected text without a declared source: the detector's guess is
    reported, and the translator is called with the source omitted. *)
Example corrected_text_without_source :
  outcome (run (POST Demo.german (Demo.text_request None (Some "en") None)) ∅)
  = Return {| detected := "de"; text := "Hallo Welt"; translation := "en:Hallo Welt" |}
  /\ translations (trace (final (run (POST Demo.german
                                        (Demo.text_request None (Some "en") None)) ∅)))
     = [(Some "Hallo Welt", "en", None)].
Proof. by vm_compute. Qed.

(** * Further properties of the handler *)

(** ** The checks on the upload *)

Lemma POST_upload_rejected w dir data e :
  data_text data = None ->
  checked_upload data = Raise e ->
  run (POST w data) dir = (Raise e, {| uploads := dir; trace := [POST_called] |}).
Proof.
  intros Ht Hup. unfold run. rewrite POST_image by done. unfold bind.
  by rewrite (handle_image_rejects _ _ _ _ e).
Qed.

Lemma checked_upload_inv data content ft :
  checked_upload data = Return (content, ft) ->
  ft = "jpg" /\ content <> "" /\
  exists image name filetype,
    data_image data = Some image /\ content = value image /\
    filename image = Some name /\ name <> "" /\
    data_filetype data = Some filetype /\ lower filetype = "jpg".
Proof.
  unfold checked_upload. destruct (data_image data) as [image|] eqn:Hi; [|done].
  destruct (filename image) as [name|] eqn:Hf; [|done].
  destruct (len (value image) =? 0)%nat eqn:Hv; [done|]. apply len_zero_false in Hv.
  destruct (len name =? 0)%nat eqn:Hn; [done|]. apply len_zero_false in Hn.
  destruct (data_filetype data) as [filetype|] eqn:Hft; [|done].
  destruct (py_in (lower filetype) supported_filetypes) eqn:Hin; [|done].
  apply py_in_true, list_elem_of_singleton in Hin. intros [= <- <-].
  split_and!; [done..|]. by exists image, name, filetype.
Qed.

(** X1. An upload with content and a file name is turned down with a 400
    when no file type is declared, and with a 400 of another message when
    the declared type, lower-cased, is not jpg; in both cases nothing is
    stored and nothing is extracted. *)
Theorem filetype_required w dir data image name :
  data_text data = None ->
  data_image data = Some image ->
  value image <> "" ->
  filename image = Some name ->
  name <> "" ->
  (data_filetype data = None ->
   run (POST w data) dir =
     (Raise (badrequest "No file-type specified."),
      {| uploads := dir; trace := [POST_called] |})) /\
  (forall filetype,
     data_filetype data = Some filetype ->
     lower filetype <> "jpg" ->
     run (POST w data) dir =
       (Raise (badrequest "No support for this filetype."),
        {| uploads := dir; trace := [POST_called] |})).
Proof.
  intros Ht Hi Hv%len_zero_false Hf Hn%len_zero_false. split.
  - intros Hft. apply POST_upload_rejected; [done|].
    unfold checked_upload. by rewrite Hi, Hf, Hv, Hn, Hft.
  - intros filetype Hft Hno. apply POST_upload_rejected; [done|].
    unfold checked_upload. rewrite Hi, Hf, Hv, Hn, Hft.
    assert (py_in (lower filetype) supported_filetypes = false) as ->; [|done].
    apply py_in_false. by intros ?%list_elem_of_singleton.
Qed.

Lemma filetype_required_witness :
  run (POST Demo.english (upload_request None "sign.jpg")) ∅ =
    (Raise (badrequest "No file-type specified."),
     {| uploads := ∅; trace := [POST_called] |})
  /\
  run (POST Demo.english (upload_request (Some "PNG") "sign.jpg")) ∅ =
    (Raise (badrequest "No support for this filetype."),
     {| uploads := ∅; trace := [POST_called] |}).
Proof.
  split.
  - by apply (proj1 (filetype_required Demo.english ∅ (upload_request None "sign.jpg")
                       _ "sign.jpg" eq_refl eq_refl ltac:(done) eq_refl ltac:(done))).
  - by apply (proj2 (filetype_required Demo.english ∅
                       (upload_request (Some "PNG") "sign.jpg")
                       _ "sign.jpg" eq_refl eq_refl ltac:(done) eq_refl ltac:(done)) "PNG").
Defined.

(** X2. An upload with content but an empty file name is a bad request
    (400); nothing is stored. *)
Theorem filename_required w dir data image :
  data_text data = None ->
  data_image data = Some image ->
  value image <> "" ->
  filename image = Some "" ->
  run (POST w data) dir =
    (Raise (badrequest "No image to process. No filename."),
     {| uploads := dir; trace := [POST_called] |}).
Proof.
  intros Ht Hi Hv%len_zero_false Hf. apply POST_upload_rejected; [done|].
  unfold checked_upload. by rewrite Hi, Hf, Hv.
Qed.

Lemma filename_required_witness :
  run (POST Demo.english (upload_request (Some "jpg") "")) ∅ =
    (Raise (badrequest "No image to process. No filename."),
     {| uploads := ∅; trace := [POST_called] |}).
Proof.
  by apply (filename_required Demo.english ∅ (upload_request (Some "jpg") "")
              {| value := "JFIF..."; filename := Some "" |}).
Defined.

(** X3. A request with neither corrected text nor an image part fails with
    a 500 whatever its other fields are: [data.image] is then the empty dict
    of the default, which has no [value]. Nothing is stored, and neither the
    detector nor the translator is asked. *)
Theorem no_input_is_server_fault w dir data :
  data_text data = None ->
  data_image data = None ->
  run (POST w data) dir =
    (Raise (python_error "AttributeError"),
     {| uploads := dir; trace := [POST_called] |})
  /\ status (python_error "AttributeError") = 500.
Proof.
  intros Ht Hi. split; [|done]. apply POST_upload_rejected; [done|].
  unfold checked_upload. by rewrite Hi.
Qed.

Lemma no_input_is_server_fault_witness :
  run (POST Demo.english bare_request) ∅ =
    (Raise (python_error "AttributeError"),
     {| uploads := ∅; trace := [POST_called] |})
  /\ status (python_error "AttributeError") = 500.
Proof. by apply no_input_is_server_fault. Defined.

(** ** The extractor on its own *)

(** X4. [get_text] on a non-empty path returns [t] exactly when the file is
    in the upload directory, decodes, and the engine returns [t] for it with
    [t] non-empty; so it never returns the empty string. Returning or
    raising, it leaves the upload directory as it was. *)
Theorem get_text_returns_iff w p h s t :
  p <> "" ->
  (fst (get_text w p h s) = Return t <->
   exists bytes image,
     uploads s !! p = Some bytes /\
     Image_decode w bytes = returns image /\
     image_to_string w image h = returns t /\
     t <> "") /\
  uploads (snd (get_text w p h s)) = uploads s.
Proof.
  intros Hp. destruct (get_text w p h s) as [r s'] eqn:Hrun. cbn [fst snd].
  pose proof (get_text_inv _ _ _ _ _ _ Hrun) as Hinv. split.
  - split.
    + intros ->. by destruct Hinv as [_ ?].
    + intros Hex. rewrite (get_text_run w p h s t Hp Hex) in Hrun. by injection Hrun as <- _.
  - destruct r; by destruct Hinv as [-> _].
Qed.

Lemma get_text_returns_iff_witness :
  (fst (get_text Demo.english Demo.path None photo_stored) = Return "Hello wor1d" <->
   exists bytes image,
     uploads photo_stored !! Demo.path = Some bytes /\
     Image_decode Demo.english bytes = returns image /\
     image_to_string Demo.english image None = returns "Hello wor1d" /\
     "Hello wor1d" <> "") /\
  uploads (snd (get_text Demo.english Demo.path None photo_stored)) = uploads photo_stored.
Proof. by apply (get_text_returns_iff Demo.english Demo.path None photo_stored). Defined.

(** ** What a response looks like *)

Lemma POST_success w dir data resp :
  outcome (run (POST w data) dir) = Return resp ->
  exists l s1 s2,
    extract_and_detect w data {| uploads := dir; trace := [] |} = (Return l, s1) /\
    translate_and_answer w data l s1 = (Return resp, s2).
Proof.
  unfold run, outcome, POST, bind.
  destruct (extract_and_detect _ _ _) as [[l|e] s1]; [|done].
  destruct (translate_and_answer _ _ _ _) as [r s2] eqn:Hr. cbn. intros ->.
  by exists l, s1, s2.
Qed.

(** X5. Every response has a non-empty [detected], a non-empty [text] and a
    non-empty [translation], and its [translation] is what the translator
    returned for its [text]. *)
Theorem response_fields_not_empty w dir data resp :
  outcome (run (POST w data) dir) = Return resp ->
  detected resp <> "" /\ text resp <> "" /\ translation resp <> "" /\
  exists target source,
    gs_translate w (text resp) target source = returns (translation resp).
Proof.
  intros (l & s1 & s2 & _ & Hr)%POST_success. revert Hr.
  rewrite translate_and_answer_eq. destruct (data_target data) as [target|]; [|done].
  destruct (negb _); [done|]. unfold bind.
  destruct (get_translation _ _ _ _ _) as [[tr|e] s3] eqn:Ht; [|done].
  apply get_translation_inv in Ht as (txt & Hx & _ & Hg & _).
  intros [_ (txt' & Hx' & ? & ? & ? & ->)]%get_json_inv. rewrite Hx in Hx'.
  injection Hx' as <-. cbn. split_and!; [done..|]. by exists (lower target), (source_lang l).
Qed.

Lemma response_fields_not_empty_witness :
  "en" <> "" /\ "Hello world" <> "" /\ "de:Hello world" <> "" /\
  exists target source,
    gs_translate Demo.english "Hello world" target source = returns "de:Hello world".
Proof.
  by apply (response_fields_not_empty Demo.english ∅ (Demo.image_request None (Some "de"))
              {| detected := "en"; text := "Hello world";
                 translation := "de:Hello world" |}).
Defined.

Lemma two_pass_fallback w dir p src evs td :
  two_pass w dir p src evs (Return td) ->
  exists t g fevs, fallback w g fevs (Return (snd td)) /\ fst td = Some t /\ t <> "".
Proof.
  inversion 1 as [| |t1 g fevs r Ht1 Hg Hno Hfb Hevs Hr
                  | |t1 g code t2 fevs r Hsrc Ht1 Hg Hcode Ht2 Hfb Hevs Hr]; subst;
    (destruct r as [d|]; [|done]); injection Hr as <-.
  - exists t1, g, fevs. split_and!; [done..|]. by destruct Ht1 as (? & ? & ? & ? & ? & ?).
  - exists t2, g, fevs. split_and!; [done..|]. by destruct Ht2 as (? & ? & ? & ? & ? & ?).
Qed.

Lemma fallback_shape w g evs d :
  fallback w g evs (Return d) ->
  d ∈ supported_languages \/ d = "Unknown" \/ exists name, d = "detected:" ++ name.
Proof.
  inversion 1 as [|names ? ? ?|]; subst; [by left|right].
  unfold display_name. destruct (names !! g); eauto.
Qed.

(** X6. The [detected] field of a response is one of en, de, it, or ['Unknown'],
    or ['detected:'] followed by a language name: a code outside the three
    supported languages never shows as such. *)
Theorem detected_field_shape w dir data resp :
  outcome (run (POST w data) dir) = Return resp ->
  detected resp ∈ supported_languages \/
  detected resp = "Unknown" \/
  exists name, detected resp = "detected:" ++ name.
Proof.
  post_cases w data dir; intros Heq; [|discriminate Heq|]; subst.
  - destruct Hrun as [(e & ? & _)|(g & evs & r1 & evs2 & _ & _ & Hfb & _ & Hres)]; [done|].
    destruct r1 as [d|e]; [|by destruct Hres].
    destruct Hres as (_ & _ & _ & ? & ? & _ & _ & _ & _ & _ & -> & _).
    by eapply fallback_shape.
  - destruct (checked_upload data) as [[content ft]|e]; [|by destruct Hrun].
    destruct Hrun as (evs & r1 & evs2 & Htp & _ & Hres).
    destruct (disk w _ content); [by destruct r1, Hres|].
    destruct r1 as [td|e]; [|by destruct Hres].
    destruct Hres as (_ & _ & _ & ? & ? & _ & _ & _ & _ & _ & -> & _).
    apply two_pass_fallback in Htp as (? & g & fevs & Hfb & _). by eapply fallback_shape.
Qed.

Lemma detected_field_shape_witness :
  "detected:French" ∈ supported_languages \/
  "detected:French" = "Unknown" \/
  exists name, "detected:French" = "detected:" ++ name.
Proof.
  by apply (detected_field_shape Demo.french ∅ (Demo.image_request None (Some "de"))
              {| detected := "detected:French"; text := "Bonjour le monde";
                 translation := "de:Bonjour le monde" |}).
Defined.

(** ** The upload directory *)

Lemma after_store_other w p content dir path :
  path <> p -> after_store w p content dir !! path = dir !! path.
Proof.
  intros Hne. unfold after_store.
  destruct (disk w p content) as [[|partial]|]; by rewrite ?lookup_insert_ne.
Qed.

(** X7. A request writes at most one file, ['uploads/<uuid>.jpg']: every
    other path of the upload directory holds after the request what it held
    before, whether the request succeeds or fails. *)
Theorem other_uploads_untouched w dir data path :
  path <> "uploads/" ++ uuid4 w ++ ".jpg" ->
  uploads (final (run (POST w data) dir)) !! path = dir !! path.
Proof.
  intros Hne. post_cases w data dir.
  - by rewrite Hdir.
  - done.
  - destruct (checked_upload data) as [[content ft]|e] eqn:Hup; [|by destruct Hrun as [_ ->]].
    destruct Hrun as (evs & r1 & evs2 & _ & -> & _). cbn [uploads].
    apply checked_upload_inv in Hup as (-> & _). by apply after_store_other.
Qed.

Lemma other_uploads_untouched_witness :
  uploads (final (run (POST Demo.english (Demo.image_request None (Some "de")))
                    {["uploads/older.jpg" := "JFIF-older"]}))
    !! "uploads/older.jpg"
  = ({["uploads/older.jpg" := "JFIF-older"]} : gmap string string) !! "uploads/older.jpg".
Proof. by apply other_uploads_untouched. Defined.

(** X8. A response to an image-mode request means the upload was stored:
    the file ['uploads/<uuid>.jpg'] then holds exactly the bytes of the
    image part. *)
Theorem response_means_stored w dir data resp :
  data_text data = None ->
  outcome (run (POST w data) dir) = Return resp ->
  exists image,
    data_image data = Some image /\
    uploads (final (run (POST w data) dir)) !! ("uploads/" ++ uuid4 w ++ ".jpg")
      = Some (value image).
Proof.
  intros Ht. destruct (run (POST w data) dir) as [res s'] eqn:Hrun.
  cbn [final outcome fst snd]. intros ->.
  apply POST_image_inv in Hrun; [|done].
  destruct (checked_upload data) as [[content ft]|e] eqn:Hup; [|by destruct Hrun].
  destruct Hrun as (evs & r1 & evs2 & _ & -> & Hres). cbn [uploads].
  apply checked_upload_inv in Hup as (-> & _ & image & _ & _ & Hi & -> & _).
  exists image. split; [done|]. unfold after_store.
  destruct (disk w _ (value image)); [by destruct r1, Hres|].
  apply lookup_insert_eq.
Qed.

Lemma response_means_stored_witness :
  exists image,
    data_image (Demo.image_request None (Some "de")) = Some image /\
    uploads (final (run (POST Demo.english (Demo.image_request None (Some "de"))) ∅))
      !! ("uploads/" ++ uuid4 Demo.english ++ ".jpg")
      = Some (value image).
Proof.
  by apply (response_means_stored Demo.english ∅ (Demo.image_request None (Some "de"))
              {| detected := "en"; text := "Hello world";
                 translation := "de:Hello world" |}).
Defined.

(** ** Letter case *)

(** X9. The handler reads [source], [target] and [filetype] lower-cased:
    two requests that differ only in the letter case of these fields are
    handled in exactly the same way. *)
Theorem letter_case_is_ignored w data data' :
  same_up_to_case data data' ->
  POST w data = POST w data'.
Proof.
  intros (Ht & Hi & Hs & Htg & Hft).
  assert (Hsrc : declared_source data = declared_source data').
  { unfold declared_source.
    destruct (data_source data), (data_source data'); try done. by injection Hs as ->. }
  assert (Hup : checked_upload data = checked_upload data').
  { unfold checked_upload. rewrite Hi.
    destruct (data_filetype data), (data_filetype data'); try done. by injection Hft as ->. }
  assert (Hans : translate_and_answer w data = translate_and_answer w data').
  { unfold translate_and_answer.
    destruct (data_target data), (data_target data'); try done. by injection Htg as ->. }
  change (POST w data) with (bind (extract_and_detect w data) (translate_and_answer w data)).
  change (POST w data') with (bind (extract_and_detect w data') (translate_and_answer w data')).
  rewrite Hans. unfold extract_and_detect, handle_image, image_in_data.
  by rewrite Ht, Hsrc, Hup.
Qed.

Lemma letter_case_is_ignored_witness :
  POST Demo.english
    {| data_text := None; data_source := Some "EN"; data_target := Some "De";
       data_filetype := Some "JPG"; data_image := Some Demo.photo |}
  = POST Demo.english
      {| data_text := None; data_source := Some "en"; data_target := Some "de";
         data_filetype := Some "jpg"; data_image := Some Demo.photo |}.
Proof. by apply letter_case_is_ignored. Defined.

(** ** What a status tells *)

Lemma target_fault_status data e : target_fault data = Some e -> status e = 400.
Proof.
  unfold target_fault. destruct (data_target data); [destruct (py_in _ _)|];
    intros [= <-]; done.
Qed.

Lemma two_pass_not_found w dir p src evs e :
  two_pass w dir p src evs (Raise e) ->
  status e = 404 ->
  exists h, (p, h) ∈ omap pass_of evs /\ extraction_fault w dir p h e.
Proof.
  inversion 1 as [e' He|t1 e' Ht1 He|t1 g fevs r Ht1 Hg Hno Hfb Hevs Hr
                  |t1 g code e' Hsrc Ht1 Hg Hcode He
                  |t1 g code t2 fevs r Hsrc Ht1 Hg Hcode Ht2 Hfb Hevs Hr]; subst; intros H404.
  - exists (first_hint src). split; [csimpl; set_solver|done].
  - congruence.
  - destruct r; [done|]. injection Hr as ->. inversion Hfb; congruence.
  - exists (Some code). split; [csimpl; set_solver|done].
  - destruct r; [done|]. injection Hr as ->. inversion Hfb; congruence.
Qed.

(** X10. A 404 has one cause only: the request is in image mode and one of
    its extraction passes found the file, decoded it and got the empty
    string from the OCR engine. *)
Theorem not_found_means_no_text w dir data e :
  outcome (run (POST w data) dir) = Raise e ->
  status e = 404 ->
  e = notfound "No text detected in image." /\
  data_text data = None /\
  exists p h bytes image,
    get_text_called p h ∈ trace (final (run (POST w data) dir)) /\
    uploads (final (run (POST w data) dir)) !! p = Some bytes /\
    Image_decode w bytes = returns image /\
    image_to_string w image h = returns "".
Proof.
  setoid_rewrite elem_of_passes.
  post_cases w data dir; intros Heq H404;
    [|injection Heq as <-; discriminate H404|]; subst.
  - exfalso.
    destruct Hrun as [(e' & [= <-] & ? & _)|(g & evs & r1 & evs2 & _ & _ & Hfb & _ & Hres)];
      [congruence|].
    destruct r1 as [d|e'].
    + destruct Hres as (_ & _ & _ & Hres). destruct (target_fault data) as [e'|] eqn:Hf.
      * destruct Hres as [-> _]. apply target_fault_status in Hf. congruence.
      * congruence.
    + destruct Hres as [[= <-] _]. inversion Hfb; congruence.
  - destruct (checked_upload data) as [[content ft]|e'] eqn:Hup.
    2:{ exfalso. destruct Hrun as [[= <-] _]. revert Hup H404. unfold checked_upload.
        repeat case_match; by intros [= <-]. }
    destruct Hrun as (evs & r1 & evs2 & Htp & -> & Hres). cbn [uploads trace].
    assert (r1 = Raise e) as ->.
    { destruct (disk w _ content).
      - destruct Hres as [Hres _]. destruct r1; cbn in Hres; injection Hres as ->;
          [discriminate H404|done].
      - destruct r1 as [td|e']; [|by destruct Hres as [[= <-] _]]. exfalso.
        destruct Hres as (_ & _ & _ & Hres). destruct (target_fault data) as [e'|] eqn:Hf.
        + destruct Hres as [-> _]. apply target_fault_status in Hf. congruence.
        + congruence. }
    destruct (two_pass_not_found _ _ _ _ _ _ Htp H404) as (h & Hin & He).
    destruct He; try discriminate H404. split_and!; [done..|].
    exists (upload_path w ft), h, bytes, image. split_and!; try done.
    csimpl. rewrite omap_app. apply elem_of_app. by left.
Qed.

Lemma not_found_means_no_text_witness :
  notfound "No text detected in image." = notfound "No text detected in image." /\
  data_text (Demo.image_request None (Some "de")) = None /\
  exists p h bytes image,
    get_text_called p h
      ∈ trace (final (run (POST Demo.blank (Demo.image_request None (Some "de"))) ∅)) /\
    uploads (final (run (POST Demo.blank (Demo.image_request None (Some "de"))) ∅)) !! p
      = Some bytes /\
    Image_decode Demo.blank bytes = returns image /\
    image_to_string Demo.blank image h = returns "".
Proof.
  by apply (not_found_means_no_text Demo.blank ∅ (Demo.image_request None (Some "de"))).
Defined.

(** X11. A 400 has two causes only: a check on the uploaded part failed, in
    which case nothing was stored or extracted, or the target language is
    missing or unsupported. Either way the translator was not called. *)
Theorem bad_request_means_rejected_input w dir data e :
  outcome (run (POST w data) dir) = Raise e ->
  status e = 400 ->
  translations (trace (final (run (POST w data) dir))) = [] /\
  ((data_text data = None /\ checked_upload data = Raise e /\
    final (run (POST w data) dir) = {| uploads := dir; trace := [POST_called] |}) \/
   target_fault data = Some e).
Proof.
  unfold translations.
  post_cases w data dir; intros Heq H400;
    [|injection Heq as <-; discriminate H400|]; subst.
  - destruct Hrun as [(e' & [= <-] & ? & _)|(g & evs & r1 & evs2 & _ & _ & Hfb & -> & Hres)];
      [congruence|].
    pose proof (fallback_silent _ _ _ _ Hfb) as (_ & _ & _ & _ & Htr & _).
    destruct r1 as [d|e'].
    + destruct (target_fault data) as [e'|] eqn:Hf.
      * eapply answers_fault in Hres as [Hres ->]; [|done]. injection Hres as ->.
        csimpl. rewrite omap_app, Htr. by split; [|right].
      * destruct Hres as (_ & _ & _ & Hres). rewrite Hf in Hres. congruence.
    + destruct Hres as [[= <-] _]. inversion Hfb; congruence.
  - destruct (checked_upload data) as [[content ft]|e'] eqn:Hup.
    { destruct Hrun as (evs & r1 & evs2 & Htp & -> & Hres). cbn [trace].
      pose proof (two_pass_passes _ _ _ _ _ _ Htp) as (Htr & _).
      assert (forall e', r1 = Raise e' -> status e' <> 400) as Hr1.
      { intros e' ->.
        destruct (two_pass_fault_status _ _ _ _ _ _ Htp) as [? | ->]; [congruence|done]. }
      destruct (disk w _ content).
      - exfalso. destruct Hres as [Hres _].
        destruct r1 as [td|e']; cbn in Hres; injection Hres as ->; [done|].
        by eapply Hr1.
      - destruct r1 as [td|e']; [|destruct Hres as [[= <-] _]; exfalso; by eapply Hr1].
        destruct (target_fault data) as [e'|] eqn:Hf.
        + eapply answers_fault in Hres as [Hres ->]; [|done]. injection Hres as ->.
          csimpl. rewrite omap_app, Htr. by split; [|right].
        + destruct Hres as (_ & _ & _ & Hres). rewrite Hf in Hres. congruence. }
    destruct Hrun as [[= <-] ->]. split; [done|]. by left.
Qed.

Lemma bad_request_means_rejected_input_witness :
  translations (trace (final (run (POST Demo.english
                                     (Demo.image_request None (Some "fr"))) ∅))) = [] /\
  ((data_text (Demo.image_request None (Some "fr")) = None /\
    checked_upload (Demo.image_request None (Some "fr"))
      = Raise (badrequest "This target language is not supported.") /\
    final (run (POST Demo.english (Demo.image_request None (Some "fr"))) ∅)
      = {| uploads := ∅; trace := [POST_called] |}) \/
   target_fault (Demo.image_request None (Some "fr"))
     = Some (badrequest "This target language is not supported.")).
Proof.
  by apply (bad_request_means_rejected_input Demo.english ∅
              (Demo.image_request None (Some "fr"))).
Defined.

(** ** A declared source language and the image *)

Lemma two_pass_declared w dir p src evs r1 :
  src <> None ->
  two_pass w dir p src evs r1 ->
  omap pass_of evs = [(p, first_hint src)] /\ read_again ∉ evs.
Proof.
  intros Hsrc. destruct 1 as [e He|t1 e Ht1 He|t1 g evs r Ht1 Hg Hno Hfb| |]; try done.
  - split; [done|absent].
  - split; [done|absent].
  - pose proof (fallback_silent _ _ _ _ Hfb) as (Hp & _ & _ & _ & _ & Hq).
    split; [by rewrite omap_app, Hp|].
    intros [Hin|Hin]%elem_of_app; [absent|].
    by apply (not_extraction_event evs read_again Hq) in Hin.
Qed.

(** X12. With a supported source language declared, an image is read once
    only: every extraction pass carries the engine identifier of the
    declared language as its hint, there is at most one pass, and the image
    is not read again whatever the detector guesses. *)
Theorem declared_source_is_the_hint w dir data s :
  data_text data = None ->
  data_source data = Some s ->
  lower s ∈ supported_languages ->
  exists code,
    supported_languages_tesseract !! lower s = Some code /\
    (forall p h, get_text_called p h ∈ trace (final (run (POST w data) dir)) ->
       h = Some code) /\
    passes (trace (final (run (POST w data) dir))) <= 1 /\
    read_again ∉ trace (final (run (POST w data) dir)).
Proof.
  intros Ht Hs Hin.
  pose proof (declared_source_Some _ _ Hs Hin) as Hsrc.
  destruct (declared_source_cases data) as [?|(l & code & Hl & _ & Hcode)]; [congruence|].
  rewrite Hsrc in Hl. injection Hl as <-. exists code. split; [done|].
  setoid_rewrite elem_of_passes. unfold passes.
  destruct (run (POST w data) dir) as [res s'] eqn:Hrun. cbn [final snd].
  apply POST_image_inv in Hrun; [|done].
  destruct (checked_upload data) as [[content ft]|e].
  2:{ destruct Hrun as [_ ->]. cbn. split_and!; [by intros ?? ?%elem_of_nil|lia|absent]. }
  destruct Hrun as (evs & r1 & evs2 & Htp & -> & Hres). cbn [trace].
  assert (omap pass_of evs2 = [] /\ Forall (fun e => extraction_event e = false) evs2)
    as [Hq Hq'].
  { destruct (disk w _ content); [by destruct Hres as [_ ->]|].
    destruct r1; [by apply answers_silent in Hres as (? & _ & _ & _ & ?)|].
    by destruct Hres as [_ ->]. }
  apply two_pass_declared in Htp as [Hp Hno]; [|by rewrite Hsrc].
  csimpl. rewrite omap_app, Hp, Hq, Hsrc. cbn [first_hint app]. rewrite Hcode.
  split_and!.
  - by intros p h [= _ ->]%list_elem_of_singleton.
  - cbn. lia.
  - intros Hin'. apply elem_of_cons in Hin' as [?|Hin']; [done|].
    apply elem_of_cons in Hin' as [?|Hin']; [done|].
    apply elem_of_app in Hin' as [?|Hin']; [done|].
    by apply (not_extraction_event evs2 read_again Hq') in Hin'.
Qed.

Lemma declared_source_is_the_hint_witness :
  exists code,
    supported_languages_tesseract !! lower "IT" = Some code /\
    (forall p h,
       get_text_called p h
         ∈ trace (final (run (POST Demo.french
                                (Demo.image_request (Some "IT") (Some "de"))) ∅)) ->
       h = Some code) /\
    passes (trace (final (run (POST Demo.french
                                 (Demo.image_request (Some "IT") (Some "de"))) ∅))) <= 1 /\
    read_again ∉ trace (final (run (POST Demo.french
                                      (Demo.image_request (Some "IT") (Some "de"))) ∅)).
Proof.
  apply (declared_source_is_the_hint Demo.french ∅
           (Demo.image_request (Some "IT") (Some "de")) "IT"); [done..|].
  by apply py_in_true.
Defined.

(** ** Corrected text that cannot be used *)

(** X13. Corrected text that is not valid base64 and corrected text that
    decodes to the empty string both end in a 500, whatever the target is:
    the first before anything else is done, the second when the detector is
    about to be asked. Neither is reported as a bad request, and the upload
    directory is left alone. *)
Theorem unusable_corrected_text w dir data t :
  data_text data = Some t ->
  (b64decode w t = raises ->
   run (POST w data) dir =
     (Raise (python_error "TypeError"), {| uploads := dir; trace := [POST_called] |})) /\
  (b64decode w t = returns "" ->
   run (POST w data) dir =
     (Raise (internalerror "No text specified."),
      {| uploads := dir; trace := [POST_called; get_language_called (Some "")] |})).
Proof.
  intros Ht. split; intros Hc; unfold run.
  - by rewrite (POST_undecodable w data _ t).
  - by rewrite (POST_corrected w data _ t "").
Qed.

Lemma unusable_corrected_text_witness :
  run (POST Demo.german
         {| data_text := Some "abc"; data_source := None; data_target := None;
            data_filetype := None; data_image := None |}) ∅ =
    (Raise (python_error "TypeError"), {| uploads := ∅; trace := [POST_called] |})
  /\
  run (POST Demo.german
         {| data_text := Some ""; data_source := None; data_target := None;
            data_filetype := None; data_image := None |}) ∅ =
    (Raise (internalerror "No text specified."),
     {| uploads := ∅; trace := [POST_called; get_language_called (Some "")] |}).
Proof.
  split.
  - by apply (proj1 (unusable_corrected_text Demo.german ∅
                       {| data_text := Some "abc"; data_source := None;
                          data_target := None; data_filetype := None;
                          data_image := None |} "abc" eq_refl)).
  - by apply (proj2 (unusable_corrected_text Demo.german ∅
                       {| data_text := Some ""; data_source := None;
                          data_target := None; data_filetype := None;
                          data_image := None |} "" eq_refl)).
Defined.

(** ** The translator's calls *)

Lemma answers_call w data l evs res :
  answers w data l evs res ->
  omap translation_of evs = [] \/
  exists target,
    data_target data = Some target /\ lower target ∈ supported_languages /\
    omap translation_of evs = [(active_text l, lower target, source_lang l)].
Proof.
  intros Hans. destruct (target_fault data) as [e|] eqn:Hf.
  - left. by eapply answers_fault in Hans as [_ ->].
  - right. unfold target_fault in Hf.
    destruct (data_target data) as [target|] eqn:Htg; [|done].
    destruct (py_in (lower target) supported_languages) eqn:Hin; [|done].
    apply py_in_true in Hin. exists target. split_and!; [done..|].
    destruct Hans as (_ & _ & Hcall & _). by apply Hcall.
Qed.

(** X14. A request calls the translator at most once, and only with a
    non-empty text, a supported target language and, as the source, either
    nothing or a supported language. *)
Theorem translator_call_is_well_formed w dir data :
  List.length (translations (trace (final (run (POST w data) dir)))) <= 1 /\
  forall x y z,
    (x, y, z) ∈ translations (trace (final (run (POST w data) dir))) ->
    (exists txt, x = Some txt /\ txt <> "") /\
    y ∈ supported_languages /\
    (z = None \/ exists s, z = Some s /\ s ∈ supported_languages).
Proof.
  assert (Hsrc : declared_source data = None \/
                 exists s, declared_source data = Some s /\ s ∈ supported_languages).
  { destruct (declared_source_cases data) as [?|(l & _ & ? & ? & _)]; [by left|right; eauto]. }
  unfold translations. post_cases w data dir.
  - destruct Hrun as [(e' & _ & _ & ->)|(g & evs & r1 & evs2 & Hne & _ & Hfb & -> & Hres)].
    { cbn. split; [lia|by intros ??? ?%elem_of_nil]. }
    pose proof (fallback_silent _ _ _ _ Hfb) as (_ & _ & _ & _ & Htr & _).
    csimpl. rewrite omap_app, Htr. cbn [app].
    destruct r1 as [d|e']; [|destruct Hres as [_ ->]; cbn; split; [lia|by intros ??? ?%elem_of_nil]].
    destruct (answers_call _ _ _ _ _ Hres) as [->|(target & _ & Hin & ->)].
    { cbn. split; [lia|by intros ??? ?%elem_of_nil]. }
    cbn. split; [lia|]. intros x y z [= -> -> ->]%list_elem_of_singleton.
    split_and!; [by exists c|done..].
  - cbn. split; [lia|by intros ??? ?%elem_of_nil].
  - destruct (checked_upload data) as [[content ft]|e'];
      [|destruct Hrun as [_ ->]; cbn; split; [lia|by intros ??? ?%elem_of_nil]].
    destruct Hrun as (evs & r1 & evs2 & Htp & -> & Hres). cbn [trace].
    pose proof (two_pass_passes _ _ _ _ _ _ Htp) as (Htr & _).
    csimpl. rewrite omap_app, Htr. cbn [app].
    destruct (disk w _ content);
      [destruct Hres as [_ ->]; cbn; split; [lia|by intros ??? ?%elem_of_nil]|].
    destruct r1 as [td|e']; [|destruct Hres as [_ ->]; cbn; split; [lia|by intros ??? ?%elem_of_nil]].
    destruct (answers_call _ _ _ _ _ Hres) as [->|(target & _ & Hin & ->)].
    { cbn. split; [lia|by intros ??? ?%elem_of_nil]. }
    apply two_pass_fallback in Htp as (t & _ & _ & _ & Htd & Hne).
    cbn. split; [lia|]. intros x y z [= -> -> ->]%list_elem_of_singleton.
    split_and!; [by exists t|done..].
Qed.

(** ** The faults of a request *)

(** The rules of [yields] for the steps a handler is made of. *)
Lemma yields_ret {A} (a : A) (Q : A -> Prop) P : Q a -> yields (ret a) Q P.
Proof. by intros ? s. Qed.

Lemma yields_raise {A} e (Q : A -> Prop) (P : exn -> Prop) : P e -> yields (raise e) Q P.
Proof. by intros ? s. Qed.

Lemma yields_lift {A} (r : result A) (Q : A -> Prop) (P : exn -> Prop) :
  match r with Return a => Q a | Raise e => P e end -> yields (lift r) Q P.
Proof. by intros ? s. Qed.

Lemma yields_LOGGER ev P : yields (LOGGER ev) (fun _ => True) P.
Proof. by intros s. Qed.

Lemma yields_invoke {A} (c : call A) name (P : exn -> Prop) :
  P (python_error name) -> yields (invoke c name) (fun _ => True) P.
Proof. intros ? s. by destruct c. Qed.

Lemma yields_bind {A B} (m : M A) (k : A -> M B) Q Q' P :
  yields m Q P -> (forall a, Q a -> yields (k a) Q' P) -> yields (bind m k) Q' P.
Proof.
  intros Hm Hk s. unfold bind. specialize (Hm s).
  destruct (m s) as [[a|e] s1]; [|done]. by apply Hk.
Qed.

Lemma yields_try_except {A} (body handler : M A) Q P :
  yields body Q (fun _ => True) -> yields handler Q P ->
  yields (try_except body handler) Q P.
Proof.
  intros Hb Hh s. unfold try_except. specialize (Hb s).
  destruct (body s) as [[a|e] s1]; [done|]. apply Hh.
Qed.

Lemma yields_try_finally {A B} (body : M A) (final : M B) Q Q' P :
  yields body Q P -> yields final Q' P -> yields (try_finally body final) Q' P.
Proof.
  intros Hb Hf s. unfold try_finally. specialize (Hb s).
  destruct (body s) as [[a|e] s1]; [apply Hf|].
  specialize (Hf s1). by destruct (final s1) as [[b|e'] s2].
Qed.

Lemma yields_weaken {A} (m : M A) (Q Q' : A -> Prop) P :
  yields m Q P -> (forall a, Q a -> Q' a) -> yields m Q' P.
Proof. intros Hm HQ s. specialize (Hm s). destruct (fst (m s)); auto. Qed.

(** A fault that is accounted for. *)
Ltac listed :=
  first [left; refine (bool_decide_unpack _ _); by vm_compute
        |right; by eexists].

Lemma get_text_yields w p h :
  p <> "" -> yields (get_text w p h) (fun t => t <> "") accounted.
Proof.
  intros Hp%len_zero_false. unfold get_text. rewrite Hp.
  eapply yields_bind; [apply yields_LOGGER|intros _ _].
  eapply yields_bind.
  { apply (yields_try_except _ _ (fun _ => True)); [|apply yields_raise; listed].
    intros s. unfold Image_open. destruct (uploads s !! p); [|done].
    by destruct (Image_decode w _). }
  intros image _. eapply yields_bind.
  { apply (yields_try_except _ _ (fun _ => True)); [|apply yields_raise; listed].
    by apply yields_invoke. }
  intros t _. rewrite len_le_zero. destruct (len t =? 0)%nat eqn:Ht.
  - apply yields_raise. listed.
  - apply len_zero_false in Ht.
    eapply yields_bind; [apply yields_LOGGER|intros _ _]. by apply yields_ret.
Qed.

Lemma get_language_yields w t :
  yields (get_language w t) (fun _ => True) accounted.
Proof.
  unfold get_language. eapply yields_bind; [apply yields_LOGGER|intros _ _].
  destruct t as [t|]; [|apply yields_raise; listed].
  destruct (len t =? 0)%nat; [apply yields_raise; listed|].
  eapply yields_bind; [apply yields_invoke; listed|intros o _].
  eapply yields_bind; [apply yields_LOGGER|intros _ _]. by apply yields_ret.
Qed.

Lemma supported_not_empty g : g ∈ supported_languages -> g <> "".
Proof.
  unfold supported_languages. rewrite !elem_of_cons, elem_of_nil.
  by intros [->|[->|[->|[]]]].
Qed.

Lemma display_name_not_empty names g : display_name names g <> "".
Proof. unfold display_name. by destruct (names !! g). Qed.

Lemma fallback_yields w g :
  yields (if negb (py_in g supported_languages) then get_language_name w g else ret g)
         (fun d => d <> "") accounted.
Proof.
  destruct (py_in g supported_languages) eqn:Hin; cbn [negb].
  - apply yields_ret. by apply supported_not_empty, py_in_true.
  - unfold get_language_name. eapply yields_bind; [apply yields_LOGGER|intros _ _].
    destruct (len g =? 0)%nat; [apply yields_raise; listed|].
    eapply yields_bind; [apply yields_invoke; listed|intros names _].
    eapply yields_bind; [apply yields_LOGGER|intros _ _].
    apply yields_ret, display_name_not_empty.
Qed.

Lemma read_image_yields w data name :
  yields (read_image w (declared_source data) "uploads" name) read_well
         accounted.
Proof.
  unfold read_image. rewrite first_pass_eq.
  eapply yields_bind; [apply yields_LOGGER|intros _ _].
  eapply yields_bind; [apply get_text_yields, path_not_empty|intros t1 Ht1].
  eapply yields_bind; [apply get_language_yields|intros g _].
  eapply (yields_bind _ _ (fun t => t <> "")).
  { destruct (bool_decide (declared_source data = None)
              && bool_decide (is_Some (supported_languages_tesseract !! g))) eqn:Hretry;
      [|by apply yields_ret].
    apply andb_true_iff in Hretry as [_ [code Hcode]%bool_decide_eq_true].
    eapply yields_bind; [apply yields_LOGGER|intros _ _].
    unfold tesseract_code. rewrite Hcode.
    eapply yields_bind; [by apply (yields_ret _ (fun _ => True))|intros c _].
    apply get_text_yields, path_not_empty. }
  intros t Ht. eapply yields_bind; [apply fallback_yields|intros d Hd].
  apply yields_ret. split; [by exists t|done].
Qed.

Lemma handle_image_yields w data :
  yields (handle_image w data (declared_source data)) read_well accounted.
Proof.
  unfold handle_image.
  eapply (yields_bind _ _ (fun _ => True)).
  { apply yields_lift. unfold checked_upload.
    destruct (data_image data) as [image|]; [|listed].
    destruct (filename image) as [name|]; [|listed].
    destruct (len (value image) =? 0)%nat; [listed|].
    destruct (len name =? 0)%nat; [listed|].
    destruct (data_filetype data) as [filetype|]; [|listed].
    destruct (negb _); [listed|done]. }
  intros upload _. eapply (yields_try_finally _ _ (fun _ => True)).
  - apply yields_try_except; [|apply yields_raise; listed].
    intros s. unfold store. by repeat case_match.
  - apply read_image_yields.
Qed.

Lemma extract_and_detect_yields w data :
  yields (extract_and_detect w data) ready accounted.
Proof.
  unfold extract_and_detect, image_in_data.
  eapply yields_bind; [apply yields_LOGGER|intros _ _].
  destruct (data_text data) as [t|].
  - eapply (yields_bind _ _ (fun cc => snd cc = true /\ exists c, fst cc = Some c)).
    { eapply yields_bind; [apply yields_invoke; listed|intros c _].
      apply yields_ret. eauto. }
    intros [x b] [Hb [c Hc]]. cbn in Hb, Hc. subst. cbn [fst snd negb andb].
    eapply yields_bind; [by apply (yields_ret _ (fun _ => True))|intros td _].
    intros s. unfold bind.
    pose proof (get_language_yields w (Some c) s) as Hy0.
    destruct (get_language w (Some c) s) as [[g|e] s1] eqn:Hg; [|done].
    apply get_language_inv in Hg.
    destruct Hg as (_ & Hne & _).
    pose proof (fallback_yields w g s1) as Hy.
    destruct ((if negb (py_in g supported_languages)
               then get_language_name w g else ret g) s1) as [[d|e] s2]; [|done].
    cbn in *. split; [by exists c|done].
  - eapply (yields_bind _ _ (fun cc => cc = (None, false)));
      [by apply yields_ret|intros cc ->]. cbn [fst snd negb andb].
    eapply yields_bind; [apply handle_image_yields|intros td [Htd Hd]].
    eapply yields_bind; [by apply (yields_ret _ (fun d => d <> ""))|intros d Hd'].
    by apply yields_ret.
Qed.

Lemma translate_and_answer_yields w data l :
  ready l ->
  yields (translate_and_answer w data l) (fun _ => True) accounted.
Proof.
  intros [(t & Ht & Hne) Hd]. rewrite translate_and_answer_eq.
  destruct (data_target data) as [target|]; [|apply yields_raise; listed].
  destruct (py_in (lower target) supported_languages) eqn:Hin; cbn [negb];
    [|apply yields_raise; listed].
  apply py_in_true, supported_not_empty in Hin.
  apply len_zero_false in Hne, Hd, Hin. rewrite Ht.
  eapply (yields_bind _ _ (fun _ => True)).
  - unfold get_translation. eapply yields_bind; [apply yields_LOGGER|intros _ _].
    rewrite Hne, Hin.
    eapply yields_bind.
    { apply (yields_try_except _ _ (fun _ => True)); [|apply yields_raise; listed].
      by apply yields_invoke. }
    intros tr _. eapply yields_bind; [apply yields_LOGGER|intros _ _]. by apply yields_ret.
  - intros tr _. unfold get_json. eapply yields_bind; [apply yields_LOGGER|intros _ _].
    rewrite Hne, Hd. destruct (len tr =? 0)%nat; [apply yields_raise; listed|].
    eapply yields_bind; [apply yields_invoke; listed|intros body _].
    by apply yields_ret.
Qed.

Lemma POST_yields w dir data :
  match outcome (run (POST w data) dir) with
  | Return _ => True
  | Raise e => accounted e
  end.
Proof.
  unfold outcome, run.
  apply (yields_bind (extract_and_detect w data) (translate_and_answer w data)
           ready (fun _ => True) accounted).
  - apply extract_and_detect_yields.
  - intros l Hl. by apply translate_and_answer_yields.
Qed.

(** X15. An error of web.py that a request ends with (a 400, a 404 or a
    500 with a message) is one of the fourteen of [faults]: a 400 of one of
    six messages, the 404 of an image without text, or a 500 of one of seven
    messages. Whatever else a request ends with is an exception that no
    [except] clause catches. In particular the guards on an empty path, an
    empty target language and an empty detected language are never
    tripped. *)
Theorem faults_are_listed w dir data e :
  outcome (run (POST w data) dir) = Raise e ->
  (e ∈ faults \/ exists name, e = python_error name) /\
  e <> internalerror "Path to image is not valid." /\
  e <> internalerror "Target language is not valid." /\
  e <> internalerror "Detected language is not valid.".
Proof.
  intros Hres. pose proof (POST_yields w dir data) as Hy. rewrite Hres in Hy.
  split; [done|].
  split_and!; intros ->; destruct Hy as [Hy|[name [=]]];
    refine (bool_decide_eq_false_1 _ _ Hy); by vm_compute.
Qed.

Lemma faults_are_listed_witness :
  (notfound "No text detected in image." ∈ faults \/
   exists name, notfound "No text detected in image." = python_error name) /\
  notfound "No text detected in image." <> internalerror "Path to image is not valid." /\
  notfound "No text detected in image." <> internalerror "Target language is not valid." /\
  notfound "No text detected in image."
    <> internalerror "Detected language is not valid.".
Proof.
  by apply (faults_are_listed Demo.blank ∅ (Demo.image_request None (Some "de"))).
Defined.

(** ** Requests that are answered *)

(** What the display-name fallback makes of the guess [g]. *)
Lemma fallback_of w g d :
  (g ∈ supported_languages /\ d = g) \/
  ((g ∉ supported_languages) /\ g <> "" /\
   exists names, gs_get_languages w = returns names /\ d = display_name names g) ->
  exists evs, fallback w g evs (Return d).
Proof.
  intros [[Hin ->]|(Hin & Hg & names & Hn & ->)]; eexists; by constructor.
Qed.

(** X16. Corrected text is answered as soon as the collaborators play
    along: when the text decodes to something non-empty, the detector
    answers, the guess is a supported language or one goslate has a name
    for, the target is supported, the translator returns a non-empty
    translation and [json.dumps] can serialise the answer (it cannot when
    the decoded bytes are not text it can decode), the response carries the
    decoded text unchanged, the guess (or its display name) and that
    translation. *)
Theorem corrected_text_is_answered w dir data t c o d target tr body :
  data_text data = Some t ->
  b64decode w t = returns c ->
  c <> "" ->
  gs_detect w c = returns o ->
  (default "unk" o ∈ supported_languages /\ d = default "unk" o) \/
  ((default "unk" o ∉ supported_languages) /\ default "unk" o <> "" /\
   exists names, gs_get_languages w = returns names /\
                 d = display_name names (default "unk" o)) ->
  data_target data = Some target ->
  lower target ∈ supported_languages ->
  gs_translate w c (lower target) (declared_source data) = returns tr ->
  tr <> "" ->
  json_dumps w {| detected := d; text := c; translation := tr |} = returns body ->
  outcome (run (POST w data) dir)
    = Return {| detected := d; text := c; translation := tr |}
  /\ uploads (final (run (POST w data) dir)) = dir.
Proof.
  intros Ht Hc Hne Hg Hd Htg Hin Htr Hne' Hj.
  destruct (fallback_of _ _ _ Hd) as (evs & Hfb).
  assert (d <> "") as Hdne.
  { inversion Hfb; subst; [by apply supported_not_empty|apply display_name_not_empty]. }
  pose proof (supported_not_empty _ Hin) as Htne.
  unfold run. rewrite (POST_corrected w data _ t c) by done. unfold bind.
  rewrite (get_language_run w c o) by done.
  rewrite (fallback_run w _ evs d) by done.
  rewrite translate_and_answer_eq, Htg. apply py_in_true in Hin. rewrite Hin.
  cbn [negb corrected_locals active_text corrected corrected_text source_lang detected_lang].
  unfold bind. rewrite (get_translation_run w c (lower target) _ tr) by done.
  by rewrite (get_json_run w c tr d body).
Qed.

Lemma corrected_text_is_answered_witness :
  outcome (run (POST Demo.german (Demo.text_request None (Some "EN") None)) ∅)
    = Return {| detected := "de"; text := "Hallo Welt"; translation := "en:Hallo Welt" |}
  /\ uploads (final (run (POST Demo.german (Demo.text_request None (Some "EN") None)) ∅))
     = ∅.
Proof.
  apply (corrected_text_is_answered Demo.german ∅ (Demo.text_request None (Some "EN") None)
           "SGFsbG8gV2VsdA==" "Hallo Welt" (Some "de") "de" "EN" "en:Hallo Welt"
           (Demo.dumps {| detected := "de"; text := "Hallo Welt";
                          translation := "en:Hallo Welt" |}));
    try done.
  - left. split; [|done]. by apply py_in_true.
  - by apply py_in_true.
Defined.

(** X17. An upload with a supported source language declared is answered
    after a single pass: when the upload passes the checks and is stored,
    the engine reads a non-empty text with the declared language's
    identifier, the detector answers, the fallback finds a name, the target
    is supported, the translation is non-empty and [json.dumps] can
    serialise the answer, the response carries the text of that pass, the detector's guess (or its display name) and the
    translation made with the declared source; the guess does not change
    the text. *)
Theorem declared_source_is_answered
        w dir data image name filetype s code img t o d target tr body :
  data_text data = None ->
  data_image data = Some image ->
  value image <> "" ->
  filename image = Some name ->
  name <> "" ->
  data_filetype data = Some filetype ->
  lower filetype = "jpg" ->
  data_source data = Some s ->
  lower s ∈ supported_languages ->
  supported_languages_tesseract !! lower s = Some code ->
  disk w ("uploads/" ++ uuid4 w ++ ".jpg") (value image) = None ->
  Image_decode w (value image) = returns img ->
  image_to_string w img (Some code) = returns t ->
  t <> "" ->
  gs_detect w t = returns o ->
  (default "unk" o ∈ supported_languages /\ d = default "unk" o) \/
  ((default "unk" o ∉ supported_languages) /\ default "unk" o <> "" /\
   exists names, gs_get_languages w = returns names /\
                 d = display_name names (default "unk" o)) ->
  data_target data = Some target ->
  lower target ∈ supported_languages ->
  gs_translate w t (lower target) (Some (lower s)) = returns tr ->
  tr <> "" ->
  json_dumps w {| detected := d; text := t; translation := tr |} = returns body ->
  outcome (run (POST w data) dir)
    = Return {| detected := d; text := t; translation := tr |}
  /\ omap pass_of (trace (final (run (POST w data) dir)))
     = [("uploads/" ++ uuid4 w ++ ".jpg", Some code)].
Proof.
  intros Ht Hi Hv Hf Hn Hft Hjpg Hs Hsin Hcode Hd Hdec Ho Htne Hg Hfbk Htg Hin Htr Htrne Hj.
  destruct (fallback_of _ _ _ Hfbk) as (evs & Hfb).
  assert (d <> "") as Hdne.
  { inversion Hfb; subst; [by apply supported_not_empty|apply display_name_not_empty]. }
  pose proof (supported_not_empty _ Hin) as Htgne.
  pose proof (declared_source_Some _ _ Hs Hsin) as Hsrc.
  pose proof (fallback_silent _ _ _ _ Hfb) as (Hsil & _).
  assert (Hup : checked_upload data = Return (value image, "jpg")).
  { rewrite <- Hjpg. apply (checked_upload_accepts data image name filetype); try done.
    rewrite Hjpg. by apply py_in_true. }
  change ("uploads/" ++ uuid4 w ++ ".jpg") with (upload_path w "jpg") in *.
  set (p := upload_path w "jpg") in *.
  assert (He : extracts w (<[p := value image]> dir) p (Some code) t).
  { exists (value image), img. by rewrite lookup_insert_eq. }
  enough (exists s', run (POST w data) dir
                      = (Return {| detected := d; text := t; translation := tr |}, s')
                     /\ omap pass_of (trace s') = [(p, Some code)])
    as (s' & -> & Hp) by done.
  unfold run. rewrite POST_image by done.
  unfold bind at 1. unfold handle_image, bind at 1, lift. rewrite Hup. cbn [fst snd].
  unfold try_finally, try_except. rewrite store_eq. fold (upload_path w "jpg"). fold p.
  rewrite Hd. unfold after_store. rewrite Hd.
  unfold read_image. fold (upload_path w "jpg"). fold p. rewrite first_pass_eq, Hsrc.
  cbn [first_hint]. rewrite Hcode.
  unfold bind at 1. cbn [LOGGER logged uploads trace app].
  unfold bind at 1. rewrite (get_text_run w p (Some code) _ t); [|apply upload_path_not_empty|exact He].
  unfold bind at 1. rewrite (get_language_run w t o) by done.
  unfold bind at 1.
  rewrite (bool_decide_eq_false_2 (Some (lower s) = None)) by done. cbn [andb ret].
  unfold bind at 1. rewrite (fallback_run w _ evs d) by done. cbn [ret fst snd].
  rewrite translate_and_answer_eq, Htg. apply py_in_true in Hin. rewrite Hin.
  cbn [negb image_locals active_text corrected text_from_image fst snd source_lang
       detected_lang].
  rewrite Hsrc. unfold bind. rewrite (get_translation_run w t (lower target) _ tr) by done.
  rewrite (get_json_run w t tr d body) by done.
  eexists. split; [done|]. unfold logged. cbn [uploads trace].
  rewrite !omap_app, Hsil. by csimpl.
Qed.

Lemma declared_source_is_answered_witness :
  outcome (run (POST Demo.french (Demo.image_request (Some "it") (Some "de"))) ∅)
    = Return {| detected := "detected:French"; text := "Bonjour le monde";
                translation := "de:Bonjour le monde" |}
  /\ omap pass_of (trace (final (run (POST Demo.french
                                        (Demo.image_request (Some "it") (Some "de"))) ∅)))
     = [("uploads/" ++ uuid4 Demo.french ++ ".jpg", Some "ita")].
Proof.
  apply (declared_source_is_answered Demo.french ∅
           (Demo.image_request (Some "it") (Some "de")) Demo.photo "sign.jpg" "jpg" "it"
           "ita" "JFIF..." "Bonjour le monde" (Some "fr") "detected:French" "de"
           "de:Bonjour le monde"
           (Demo.dumps {| detected := "detected:French"; text := "Bonjour le monde";
                          translation := "de:Bonjour le monde" |}));
    try done; try (by apply py_in_true).
  right. split; [by apply py_in_false|]. split; [done|].
  by exists Demo.names.
Defined.
